(** * discord-player: the voice stream dispatcher

    A shallow embedding of [src/VoiceInterface/BasicStreamDispatcher.ts].

    The dispatcher is glue around two objects of the voice library, a
    [VoiceConnection] and an [AudioPlayer].  Everything it does is either
    an assignment to one of its own two mutable fields ([audioResource],
    [readyLock]) or an interaction with those objects: reading one of
    their properties, calling one of their methods, awaiting one of their
    promises.  The embedding keeps that split:

    - the dispatcher's fields are a record that is threaded through;
    - the library is an _environment_: an arbitrary state type with an
      arbitrary answer to every call, so that every theorem below holds
      whatever the library does;
    - by the time a call returns, or an awaited promise settles, other
      code of the program may have run and assigned the dispatcher's
      fields (listeners run inside [emit], handlers of this very
      dispatcher run when the library reports a new state); what it did
      is part of the environment too;
    - every call and every assignment of a run is appended to a trace,
      which is what statements such as "requests a rejoin", "never calls
      the player" or "drops the resource" are about;
    - a [throw] is a result of its own, and [try]/[catch]/[finally] are
      combinators with the semantics of the language. *)

From Stdlib Require Import ZArith NArith Bool List String Ascii Lia SpecFloat.
Import ListNotations.
Open Scope string_scope.
Open Scope list_scope.
Open Scope Z_scope.

Set Implicit Arguments.

(** ** Strict equality

    [===] of the source is only ever used on enumeration members and on
    numbers that are integers here; [undefined] is [None]. *)

Class StrictEq (A : Type) := strict_eq : forall x y : A, {x = y} + {x <> y}.

Notation "a === b" := (if strict_eq a b then true else false)
  (at level 70, no associativity).
Notation "a !== b" := (if strict_eq a b then false else true)
  (at level 70, no associativity).

(** ** The enumerations of the voice library *)

Inductive VoiceConnectionStatus :=
| Signalling | Connecting | Ready | Disconnected | Destroyed.

Inductive VoiceConnectionDisconnectReason :=
| WebSocketClose | AdapterUnavailable | EndpointRemoved | Manual.

Inductive AudioPlayerStatus :=
| Idle | Buffering | Paused | Playing | AutoPaused.

Inductive StreamType :=
| Arbitrary | Raw | OggOpus | WebmOpus | Opus.

#[export] Instance VoiceConnectionStatus_eq : StrictEq VoiceConnectionStatus.
Proof. intros x y; decide equality. Defined.

#[export] Instance VoiceConnectionDisconnectReason_eq :
  StrictEq VoiceConnectionDisconnectReason.
Proof. intros x y; decide equality. Defined.

#[export] Instance AudioPlayerStatus_eq : StrictEq AudioPlayerStatus.
Proof. intros x y; decide equality. Defined.

#[export] Instance Z_eq : StrictEq Z := Z.eq_dec.

#[export] Instance option_eq (A : Type) `{StrictEq A} : StrictEq (option A).
Proof. intros x y; decide equality. Defined.

(** ** Numbers

    A [number] of the source is an IEEE 754 binary64 value.  Counters and
    timeouts are integers and are kept in [Z]; the argument of
    [setVolume] is a genuine double and is kept as one, with the
    comparisons and the division of the standard. *)

Definition number := spec_float.

Definition Infinity : number := S754_infinity false.
Definition NaN : number := S754_nan.
Definition zero : number := S754_zero false.

(** The double 100, i.e. 7036874417766400 * 2^-46. *)
Definition hundred : number := S754_finite false 7036874417766400 (-46).

Definition isNaN (x : number) : bool :=
  match x with S754_nan => true | _ => false end.

Definition number_lt (x y : number) : bool := SFltb x y.
Definition number_gt (x y : number) : bool := SFltb y x.
Definition number_div (x y : number) : number := SFdiv 53 1024 x y.

(** ** The states carried by the [stateChange] events *)

Module VoiceConnection.

(** [reason] is present on a [Disconnected] state only, [closeCode] only
    when the reason is [WebSocketClose]; an absent property reads as
    [undefined]. *)
Record State := {
  status : VoiceConnectionStatus;
  reason : option VoiceConnectionDisconnectReason;
  closeCode : option Z
}.

End VoiceConnection.

Module AudioPlayer.

Record State := { status : AudioPlayerStatus }.

End AudioPlayer.

(** ** Resources

    An [AudioResource] is an object of the library; the dispatcher only
    holds a reference to it.  Its [volume] property is the inline volume
    transformer, present only when the resource was created with
    [inlineVolume]. *)

Definition VolumeTransformer := nat.

Record AudioResource := {
  resource_id : nat;
  volume : option VolumeTransformer
}.

Inductive Source :=
| SrcStream (handle : nat)
| SrcLocator (locator : string).

Definition Metadata := nat.

Record StreamOptions := {
  ops_type : option StreamType;
  ops_data : option Metadata
}.

(** ** What can be thrown *)

Inductive Thrown :=
| Error (message : string)
| TypeError (message : string)
| LibraryError (code : nat).

Inductive Outcome (A : Type) :=
| Returned (a : A)
| Raised (e : Thrown).

Arguments Returned {A} a.
Arguments Raised {A} e.

(** ** The events of the dispatcher ([VoiceEvents]) *)

Inductive VoiceEvent :=
| EvError (error : nat)
| EvDebug (message : string)
| EvStart
| EvFinish.

(** ** Calls into the library

    The index is the type of the answer.  A method that can throw, and a
    promise that can reject, answer with an [Outcome]. *)

Inductive Cmd : Type -> Type :=
| EntersState (target : VoiceConnectionStatus) (timeout : Z) : Cmd (Outcome unit)
| UtilWait (ms : Z) : Cmd unit
| Destroy : Cmd (Outcome unit)
| Rejoin : Cmd bool
| Play (resource : AudioResource) : Cmd (Outcome unit)
| Stop : Cmd bool
| Pause (interpolateSilence : option bool) : Cmd bool
| Unpause : Cmd bool
| Emit (event : VoiceEvent) : Cmd bool
| CreateAudioResource (src : Source) (inputType : StreamType)
    (metadata : option Metadata) (inlineVolume : bool) : Cmd AudioResource
| SetVolumeLogarithmic (vt : VolumeTransformer) (value : number) : Cmd unit.

(** What a run of dispatcher code does, step by step. *)
Inductive Action :=
| Called (X : Type) (c : Cmd X)
| Assigned_audioResource (v : option AudioResource)
| Assigned_readyLock (b : bool).

Arguments Called {X} c.

(** The properties of the library objects that the dispatcher reads. *)
Record External := {
  voiceConnection_status : VoiceConnectionStatus;
  voiceConnection_rejoinAttempts : Z;
  audioPlayer_status : AudioPlayerStatus
}.

(** ** The dispatcher's own fields *)

Record Dispatcher := {
  audioResource : option AudioResource;
  readyLock : bool
}.

(** ** The environment

    [respond] is what a call answers and how the library moves on;
    [view] is what a property read sees.  [meanwhile] is what other
    code did to the fields of the dispatcher before the call returned or
    the awaited promise settled, given the state the library is in by
    then.  All three are arbitrary. *)

Record Env := {
  env_state : Type;
  respond : forall X, Cmd X -> env_state -> X * env_state;
  view : env_state -> External;
  meanwhile : env_state -> Dispatcher -> Dispatcher
}.

(** An environment in which nothing else touches the dispatcher. *)
Definition quiet (E : Env) : Prop :=
  forall (e : env_state E) (d : Dispatcher), meanwhile E e d = d.

Record World (E : Env) := {
  this : Dispatcher;
  world : env_state E;
  trace : list Action
}.

(** ** The monad of dispatcher code: state, log and exceptions *)

Section Semantics.
Context {E : Env}.

Definition M (A : Type) : Type := World E -> Outcome A * World E.

Definition ret {A} (a : A) : M A := fun w => (Returned a, w).

Definition throw {A} (e : Thrown) : M A := fun w => (Raised e, w).

Definition bind {A B} (m : M A) (k : A -> M B) : M B :=
  fun w =>
    match m w with
    | (Returned a, w') => k a w'
    | (Raised e, w') => (Raised e, w')
    end.

(** [try { body } catch { handler }] *)
Definition try_catch {A} (body : M A) (handler : Thrown -> M A) : M A :=
  fun w =>
    match body w with
    | (Returned a, w') => (Returned a, w')
    | (Raised e, w') => handler e w'
    end.

(** [try { body } finally { cleanup }]: the cleanup runs on every exit of
    the body, and the body's result stands unless the cleanup throws. *)
Definition try_finally {A} (body : M A) (cleanup : M unit) : M A :=
  fun w =>
    let (o, w') := body w in
    match cleanup w' with
    | (Returned _, w'') => (o, w'')
    | (Raised e, w'') => (Raised e, w'')
    end.

(** An exception thrown by a method, or the rejection of an awaited
    promise, is rethrown at the call site. *)
Definition settle {A} (o : Outcome A) : M A :=
  match o with
  | Returned a => ret a
  | Raised e => throw e
  end.

(** A method call. *)
Definition call {X} (c : Cmd X) : M X :=
  fun w =>
    let (x, e) := respond E c (world w) in
    (Returned x,
     {| this := meanwhile E e (this w); world := e;
        trace := trace w ++ [Called c] |}).

(** [await] of the promise that a call returns: the function resumes
    with what the promise settled to. *)
Definition await {X} (c : Cmd X) : M X := call c.

(** Reading a property of the connection or of the player. *)
Definition read {A} (property : External -> A) : M A :=
  fun w => (Returned (property (view E (world w))), w).

Definition get_audioResource : M (option AudioResource) :=
  fun w => (Returned (audioResource (this w)), w).

Definition get_readyLock : M bool :=
  fun w => (Returned (readyLock (this w)), w).

Definition set_audioResource (v : option AudioResource) : M unit :=
  fun w =>
    (Returned tt,
     {| this := {| audioResource := v; readyLock := readyLock (this w) |};
        world := world w;
        trace := trace w ++ [Assigned_audioResource v] |}).

Definition set_readyLock (b : bool) : M unit :=
  fun w =>
    (Returned tt,
     {| this := {| audioResource := audioResource (this w); readyLock := b |};
        world := world w;
        trace := trace w ++ [Assigned_readyLock b] |}).

End Semantics.

Declare Scope js_scope.
Delimit Scope js_scope with js.
Notation "x <- m ;; k" := (bind m (fun x => k))
  (at level 100, m at next level, right associativity) : js_scope.
Notation "m ;; k" := (bind m (fun _ => k))
  (at level 100, right associativity) : js_scope.
Open Scope js_scope.

(** ** The dispatcher *)

Section StreamDispatcher.
Context {E : Env}.

(** *** The library, as the dispatcher calls it *)

Definition entersState (target : VoiceConnectionStatus) (timeout : Z) : M (E:=E) unit :=
  o <- await (EntersState target timeout) ;; settle o.

(** Modelled from the spec: [Util.wait] of [utils/Util] is not among the
    sources; the handler "suspends for" the given number of milliseconds
    and goes on, so the promise carries nothing and is never rejected. *)
Definition wait (ms : Z) : M (E:=E) unit := await (UtilWait ms).

Definition destroy : M (E:=E) unit := o <- call Destroy ;; settle o.

Definition rejoin : M (E:=E) bool := call Rejoin.

Definition emit (event : VoiceEvent) : M (E:=E) bool := call (Emit event).

(** *** Getters *)

(** [get status] *)
Definition status : M (E:=E) AudioPlayerStatus := read audioPlayer_status.

(** [get paused] *)
Definition paused : M (E:=E) bool :=
  s <- read audioPlayer_status ;;
  ret (existsb (fun x => x === s) [AutoPaused; Paused]).

(** *** Methods *)

(** The fields of a dispatcher once its constructor has run. *)
Definition constructed : Dispatcher :=
  {| audioResource := None; readyLock := false |}.

Definition createStream (src : Source) (ops : option StreamOptions) : M (E:=E) AudioResource :=
  r <- call (CreateAudioResource src
               match ops with
               | Some o => match ops_type o with Some t => t | None => Arbitrary end
               | None => Arbitrary
               end
               match ops with Some o => ops_data o | None => None end
               true) ;;
  set_audioResource (Some r) ;;
  ret r.

Definition disconnect : M (E:=E) unit :=
  try_catch destroy (fun _ => ret tt).

Definition end_ : M (E:=E) unit := call Stop ;; ret tt.

Definition pause (interpolateSilence : option bool) : M (E:=E) bool :=
  success <- call (Pause interpolateSilence) ;;
  ret success.

Definition resume : M (E:=E) bool :=
  success <- call Unpause ;;
  ret success.

(** The argument is [None] when the caller passes none, and then
    defaults to the current resource.  [return this] is rendered as
    returning nothing. *)
Definition playStream (arg : option AudioResource) : M (E:=E) unit :=
  resource <- match arg with
              | Some r => ret (Some r)
              | None => get_audioResource
              end ;;
  match resource with
  | None => throw (Error "Audio resource is not available!")
  | Some r =>
      current <- get_audioResource ;;
      match current with
      | None => set_audioResource (Some r)
      | Some _ => ret tt
      end ;;
      s <- read voiceConnection_status ;;
      (if s !== Ready then entersState Ready 20000 else ret tt) ;;
      o <- call (Play r) ;;
      settle o ;;
      ret tt
  end.

Definition setVolume (value : number) : M (E:=E) bool :=
  current <- get_audioResource ;;
  match current with
  | None => ret false
  | Some r =>
      if isNaN value || number_lt value zero || number_gt value Infinity
      then ret false
      else
        match volume r with
        | None =>
            throw (TypeError
              "Cannot read properties of undefined (reading 'setVolumeLogarithmic')")
        | Some vt =>
            call (SetVolumeLogarithmic vt (number_div value hundred)) ;;
            ret true
        end
  end.

(** *** The handler of the connection's [stateChange] *)

Import VoiceConnection.

Definition voiceConnection_stateChange (oldState newState : VoiceConnection.State) : M (E:=E) unit :=
  if VoiceConnection.status newState === Disconnected then
    if (reason newState === Some WebSocketClose) && (closeCode newState === Some 4014)
    then
      try_catch (entersState Connecting 5000) (fun _ => destroy)
    else
      attempts <- read voiceConnection_rejoinAttempts ;;
      if attempts <? 5 then
        attempts' <- read voiceConnection_rejoinAttempts ;;
        wait ((attempts' + 1) * 5000) ;;
        rejoin ;;
        ret tt
      else destroy
  else if VoiceConnection.status newState === Destroyed then
    end_
  else
    locked <- get_readyLock ;;
    if negb locked &&
       ((VoiceConnection.status newState === Connecting)
        || (VoiceConnection.status newState === Signalling))
    then
      set_readyLock true ;;
      try_finally
        (try_catch
           (entersState Ready 20000)
           (fun _ =>
              s <- read voiceConnection_status ;;
              if s !== Destroyed then destroy else ret tt))
        (set_readyLock false)
    else ret tt.

(** *** The handlers of the player's events *)

Definition audioPlayer_stateChange (oldState newState : AudioPlayer.State) : M (E:=E) unit :=
  if (AudioPlayer.status newState === Idle)
     && (AudioPlayer.status oldState !== Idle)
  then
    p <- paused ;;
    if negb p then
      set_audioResource None ;;
      emit EvFinish ;;
      ret tt
    else ret tt
  else if AudioPlayer.status newState === Playing then
    p <- paused ;;
    if negb p then emit EvStart ;; ret tt else ret tt
  else ret tt.

Definition audioPlayer_debug (m : string) : M (E:=E) unit :=
  emit (EvDebug m) ;; ret tt.

Definition audioPlayer_error (error : nat) : M (E:=E) unit :=
  emit (EvError error) ;; ret tt.

End StreamDispatcher.

(** ** Reading a trace *)

Definition is_emit (event : VoiceEvent) (a : Action) : bool :=
  match a with
  | Called (Emit e) =>
      match event, e with
      | EvStart, EvStart | EvFinish, EvFinish => true
      | EvDebug m, EvDebug m' => String.eqb m m'
      | EvError x, EvError x' => Nat.eqb x x'
      | _, _ => false
      end
  | _ => false
  end.

Definition is_rejoin (a : Action) : bool :=
  match a with Called Rejoin => true | _ => false end.

Definition is_wait (a : Action) : bool :=
  match a with Called (UtilWait _) => true | _ => false end.

Definition is_play (a : Action) : bool :=
  match a with Called (Play _) => true | _ => false end.

Definition is_assignment (a : Action) : bool :=
  match a with
  | Assigned_audioResource _ | Assigned_readyLock _ => true
  | Called _ => false
  end.

(** How many times [event] was emitted in a trace. *)
Definition emitted (event : VoiceEvent) (t : list Action) : nat :=
  List.length (filter (is_emit event) t).

(** The resource that [playStream] works with: its argument, or the
    current resource when it is called without one. *)
Definition chosen (arg : option AudioResource) (d : Dispatcher) : option AudioResource :=
  match arg with
  | Some r => Some r
  | None => audioResource d
  end.

(** ** A sample environment

    A small stand-in for the voice library, for running the dispatcher
    on concrete inputs: [destroy] throws on a connection that is
    already destroyed, [rejoin] counts the attempts, an awaited state is
    entered in time exactly when [in_time] says so, and nothing else
    touches the dispatcher. *)

Module Sample.

Record State := {
  connection : VoiceConnectionStatus;
  attempts : Z;
  player : AudioPlayerStatus;
  in_time : bool
}.

Definition library (c : VoiceConnectionStatus) (n : Z) (p : AudioPlayerStatus)
  (t : bool) : State :=
  {| connection := c; attempts := n; player := p; in_time := t |}.

Definition respond (X : Type) (c : Cmd X) (s : State) : X * State :=
  match c in Cmd X return X * State with
  | EntersState target _ =>
      if in_time s
      then (Returned tt, library target (attempts s) (player s) (in_time s))
      else (Raised (LibraryError 0), s)
  | UtilWait _ => (tt, s)
  | Destroy =>
      if connection s === Destroyed
      then (Raised (Error "Cannot destroy VoiceConnection - it has already been destroyed"), s)
      else (Returned tt, library Destroyed (attempts s) (player s) (in_time s))
  | Rejoin =>
      (true, library Signalling (attempts s + 1) (player s) (in_time s))
  | Play _ =>
      (Returned tt, library (connection s) (attempts s) Playing (in_time s))
  | Stop =>
      (player s !== Idle, library (connection s) (attempts s) Idle (in_time s))
  | Pause _ =>
      (player s === Playing,
       library (connection s) (attempts s)
         (if player s === Playing then Paused else player s) (in_time s))
  | Unpause =>
      (player s === Paused,
       library (connection s) (attempts s)
         (if player s === Paused then Playing else player s) (in_time s))
  | Emit _ => (true, s)
  | CreateAudioResource _ _ _ inlineVolume =>
      ({| resource_id := 1; volume := if inlineVolume then Some 1%nat else None |}, s)
  | SetVolumeLogarithmic _ _ => (tt, s)
  end.

Definition view (s : State) : External :=
  {| voiceConnection_status := connection s;
     voiceConnection_rejoinAttempts := attempts s;
     audioPlayer_status := player s |}.

Definition env : Env :=
  @Build_Env State respond view (fun _ d => d).

(** The same library, in a program where the current resource is
    dropped during every call, as the handler of the player's
    [stateChange] does when the player reaches [Idle]. *)
Definition env_dropping : Env :=
  @Build_Env State respond view
    (fun _ d => {| audioResource := None; readyLock := readyLock d |}).

(** The same library again, on a connection whose [destroy] throws
    whatever its status. *)
Definition respond_throwing (X : Type) (c : Cmd X) (s : State) : X * State :=
  match c in Cmd X return X * State with
  | Destroy => (Raised (LibraryError 1), s)
  | c' => respond c' s
  end.

Definition env_destroy_throws : Env :=
  @Build_Env State respond_throwing view (fun _ d => d).

Definition start (E : Env) (d : Dispatcher) (s : env_state E) : World E :=
  {| this := d; world := s; trace := [] |}.

Definition track1 : AudioResource := {| resource_id := 1; volume := Some 1%nat |}.
Definition track2 : AudioResource := {| resource_id := 2; volume := Some 2%nat |}.

Definition loaded (r : AudioResource) : Dispatcher :=
  {| audioResource := Some r; readyLock := false |}.

Definition disconnected (reason : VoiceConnectionDisconnectReason)
  (closeCode : option Z) : VoiceConnection.State :=
  {| VoiceConnection.status := Disconnected;
     VoiceConnection.reason := Some reason;
     VoiceConnection.closeCode := closeCode |}.

Definition connection_in (s : VoiceConnectionStatus) : VoiceConnection.State :=
  {| VoiceConnection.status := s;
     VoiceConnection.reason := None;
     VoiceConnection.closeCode := None |}.

Definition player_in (s : AudioPlayerStatus) : AudioPlayer.State :=
  {| AudioPlayer.status := s |}.

(** The player changes status on its own. *)
Definition player_becomes (p : AudioPlayerStatus) (w : World env) : World env :=
  @Build_World env (this w)
    (library (connection (world w)) (attempts (world w)) p (in_time (world w)))
    (trace w).

(** The doubles 50 and -1. *)
Definition fifty : number := S754_finite false 7036874417766400 (-47).
Definition minus_one : number := S754_finite true 4503599627370496 (-52).

(** Whether a number is a well-formed binary64 value. *)
Definition binary64 (x : number) : bool := valid_binary 53 1024 x.

End Sample.

(** The actions of a run that leads from [w] to [w']. *)
Definition since {E : Env} (w w' : World E) : list Action :=
  skipn (List.length (trace w)) (trace w').

Definition is_destroy (a : Action) : bool :=
  match a with Called Destroy => true | _ => false end.

Definition is_emission (a : Action) : bool :=
  match a with Called (Emit _) => true | _ => false end.

Definition is_library_call (a : Action) : bool :=
  match a with
  | Called (Emit _) => false
  | Called _ => true
  | _ => false
  end.

Definition assigns_audioResource (a : Action) : bool :=
  match a with Assigned_audioResource _ => true | _ => false end.

Definition assigns_readyLock (a : Action) : bool :=
  match a with Assigned_readyLock _ => true | _ => false end.

(** ** The helpers of [src/Util.js]

    [isVoiceEmpty] and the two helpers that test a query against a
    regular expression.  ([isSoundcloudLink] and [isYTPlaylistLink] only
    hand the query to [validateURL] of two other packages.) *)

Module Util.

(** *** Voice channels

    [channel.members] is a collection of the members in the channel,
    keyed by their identifiers. *)

Record User := { bot : bool }.

Record GuildMember := { user : User }.

Record VoiceChannel := { members : list (string * GuildMember) }.

Definition isVoiceEmpty (channel : VoiceChannel) : bool :=
  Nat.eqb
    (List.length
       (filter (fun entry => negb (bot (user (snd entry)))) (members channel)))
    0.

(** *** Strings and regular expressions

    A string is a sequence of UTF-16 code units, and a regular
    expression without the [u] flag matches code unit by code unit. *)

Definition char := N.

Definition jsstring := list char.

(** The string of a literal in ASCII. *)
Definition js (s : string) : jsstring :=
  map N_of_ascii (list_ascii_of_string s).

Inductive regex :=
| Void
| Eps
| Class (p : char -> bool)
| Cat (r1 r2 : regex)
| Alt (r1 r2 : regex)
| Star (r : regex).

(** A run of literal characters. *)
Fixpoint lit (s : jsstring) : regex :=
  match s with
  | [] => Eps
  | c :: s' => Cat (Class (N.eqb c)) (lit s')
  end.

(** [r?], [r+], [r{n}] and a sequence of terms. *)
Definition opt (r : regex) : regex := Alt r Eps.

Definition plus (r : regex) : regex := Cat r (Star r).

Fixpoint exactly (n : nat) (r : regex) : regex :=
  match n with
  | O => Eps
  | S n' => Cat r (exactly n' r)
  end.

Definition seq (rs : list regex) : regex := fold_right Cat Eps rs.

(** The strings a pattern matches as a whole. *)
Inductive matches : regex -> jsstring -> Prop :=
| MEps : matches Eps []
| MClass p c : p c = true -> matches (Class p) [c]
| MCat r1 r2 s1 s2 :
    matches r1 s1 -> matches r2 s2 -> matches (Cat r1 r2) (s1 ++ s2)
| MAltL r1 r2 s : matches r1 s -> matches (Alt r1 r2) s
| MAltR r1 r2 s : matches r2 s -> matches (Alt r1 r2) s
| MStar0 r : matches (Star r) []
| MStarS r s1 s2 :
    matches r s1 -> matches (Star r) s2 -> matches (Star r) (s1 ++ s2).

(** Matching by derivatives. *)
Fixpoint nullable (r : regex) : bool :=
  match r with
  | Void => false
  | Eps => true
  | Class _ => false
  | Cat r1 r2 => nullable r1 && nullable r2
  | Alt r1 r2 => nullable r1 || nullable r2
  | Star _ => true
  end.

Definition cat (r1 r2 : regex) : regex :=
  match r1, r2 with
  | Void, _ => Void
  | _, Void => Void
  | Eps, _ => r2
  | _, _ => Cat r1 r2
  end.

Definition alt (r1 r2 : regex) : regex :=
  match r1, r2 with
  | Void, _ => r2
  | _, Void => r1
  | _, _ => Alt r1 r2
  end.

Fixpoint deriv (c : char) (r : regex) : regex :=
  match r with
  | Void => Void
  | Eps => Void
  | Class p => if p c then Eps else Void
  | Cat r1 r2 =>
      alt (cat (deriv c r1) r2) (if nullable r1 then deriv c r2 else Void)
  | Alt r1 r2 => alt (deriv c r1) (deriv c r2)
  | Star r1 => cat (deriv c r1) (Star r1)
  end.

(** Whether the pattern matches at the start of the string. *)
Fixpoint match_prefix (r : regex) (s : jsstring) : bool :=
  nullable r
  || match s with
     | [] => false
     | c :: s' => match_prefix (deriv c r) s'
     end.

(** [RegExp.prototype.test] of a pattern without flags: whether the
    pattern matches somewhere in the string.  The patterns at hand have
    no back-reference, no look-around and no anchor, so whether a match
    exists does not depend on the order in which alternatives are
    tried. *)
Fixpoint test (r : regex) (s : jsstring) : bool :=
  match_prefix r s
  || match s with
     | [] => false
     | _ :: s' => test r s'
     end.

(** *** Character classes *)

Definition in_range (lo hi : N) (c : char) : bool := N.leb lo c && N.leb c hi.

(** [\w] *)
Definition is_word (c : char) : bool :=
  in_range 65 90 c || in_range 97 122 c || in_range 48 57 c || N.eqb c 95.

Definition is_line_terminator (c : char) : bool :=
  N.eqb c 10 || N.eqb c 13 || N.eqb c 8232 || N.eqb c 8233.

(** [\s]: white space and line terminators. *)
Definition is_space (c : char) : bool :=
  in_range 9 13 c || N.eqb c 32 || N.eqb c 160 || N.eqb c 5760
  || in_range 8192 8202 c || N.eqb c 8232 || N.eqb c 8233 || N.eqb c 8239
  || N.eqb c 8287 || N.eqb c 12288 || N.eqb c 65279.

(** [.] *)
Definition dot (c : char) : bool := negb (is_line_terminator c).

Definition one_of (set : jsstring) (c : char) : bool := existsb (N.eqb c) set.

(** [[^\/]] *)
Definition not_slash (c : char) : bool := negb (one_of (js "/") c).

(** The class of the characters of a video identifier: none of the
    double quote, [&], [?], [/] and white space. *)
Definition id_char (c : char) : bool :=
  negb (one_of [34; 38; 63; 47]%N c || is_space c).

(** [\w|-] *)
Definition id_symbol (c : char) : bool := is_word c || N.eqb c 45.

(** *** The two patterns and their helpers *)

Definition youtubeVideoRegex : regex :=
  seq [Alt (seq [lit (js "youtube.com/");
                 Alt (seq [plus (Class not_slash); lit (js "/");
                           plus (Class dot); lit (js "/")])
                   (Alt (seq [Alt (lit (js "v"))
                                (seq [lit (js "e"); opt (lit (js "mbed"))]);
                              lit (js "/")])
                      (seq [Star (Class dot); Class (one_of (js "?&"));
                            lit (js "v=")]))])
         (lit (js "youtu.be/"));
       exactly 11 (Class id_char)].

Definition spotifySongRegex : regex :=
  seq [lit (js "http"); opt (lit (js "s")); lit (js "://");
       Alt (lit (js "embed.")) (lit (js "open."));
       lit (js "spotify.com/");
       Alt (lit (js "track/")) (lit (js "?uri=spotify:track:"));
       exactly 22 (Alt (Class is_word) (lit (js "-")))].

Definition isSpotifyLink (query : jsstring) : bool :=
  test spotifySongRegex query.

Definition isYTVideoLink (query : jsstring) : bool :=
  test youtubeVideoRegex query.

(** *** What the video pattern accepts before the identifier *)

Definition video_path (path : jsstring) : Prop :=
  (exists seg rest,
      path = seg ++ js "/" ++ rest ++ js "/"
      /\ seg <> [] /\ forallb not_slash seg = true
      /\ rest <> [] /\ forallb dot rest = true)
  \/ path = js "v/" \/ path = js "e/" \/ path = js "embed/"
  \/ (exists before sep,
        path = before ++ [sep] ++ js "v="
        /\ forallb dot before = true
        /\ one_of (js "?&") sep = true).

Definition video_route (route : jsstring) : Prop :=
  route = js "youtu.be/"
  \/ exists path, route = js "youtube.com/" ++ path /\ video_path path.

End Util.

(** ** More sample data *)

Module More.
Import Util.

(** A dispatcher that holds the guard. *)
Definition waiting (r : AudioResource) : Dispatcher :=
  {| audioResource := Some r; readyLock := true |}.

Definition human : GuildMember := {| user := {| bot := false |} |}.
Definition robot : GuildMember := {| user := {| bot := true |} |}.

Definition only_bots : VoiceChannel :=
  {| members := [("101", robot); ("102", robot)] |}.

Definition track_id : jsstring := js "4uLU6hMCjMI75M1A2tKUQC".
Definition video_id : jsstring := js "dQw4w9WgXcQ".

Definition track_link : jsstring := js "http://open.spotify.com/track/" ++ track_id.
Definition short_link : jsstring := js "youtu.be/" ++ video_id.

End More.

(** ** Properties *)

Lemma strict_eq_refl (A : Type) `{StrictEq A} (a : A) : (a === a) = true.
Proof. destruct (strict_eq a a); congruence. Qed.

Lemma strict_eq_true (A : Type) `{StrictEq A} (a b : A) :
  (a === b) = true <-> a = b.
Proof. destruct (strict_eq a b); split; congruence. Qed.

Lemma strict_eq_false (A : Type) `{StrictEq A} (a b : A) :
  (a === b) = false <-> a <> b.
Proof. destruct (strict_eq a b); split; congruence. Qed.

Lemma strict_neq_true (A : Type) `{StrictEq A} (a b : A) :
  (a !== b) = true <-> a <> b.
Proof. destruct (strict_eq a b); split; congruence. Qed.

(** The test that selects the single-wait path of a disconnect. *)
Lemma close_4014_test (newState : VoiceConnection.State) :
  (VoiceConnection.reason newState === Some WebSocketClose)
  && (VoiceConnection.closeCode newState === Some 4014) = true
  <-> VoiceConnection.reason newState = Some WebSocketClose
      /\ VoiceConnection.closeCode newState = Some 4014.
Proof.
  rewrite andb_true_iff, !strict_eq_true. tauto.
Qed.

Lemma skipn_prefix (A : Type) (l new : list A) :
  skipn (List.length l) (l ++ new) = new.
Proof.
  rewrite skipn_app, skipn_all, Nat.sub_diag. reflexivity.
Qed.

(** A run that appends [new] to the trace has [new] as its actions. *)
Lemma since_appended (E : Env) (w w' : World E) (new : list Action) :
  trace w' = trace w ++ new -> since w w' = new.
Proof.
  intros H. unfold since. rewrite H. apply skipn_prefix.
Qed.

Ltac unfold_js :=
  cbv [bind ret throw try_catch try_finally settle call await read
       get_audioResource get_readyLock set_audioResource set_readyLock
       entersState wait destroy rejoin emit paused end_ disconnect].

(** Case analysis on the answer of the next call. *)
Ltac answer :=
  cbn [fst snd world this trace];
  match goal with
  | |- context [respond ?E ?c ?s] =>
      let x := fresh "x" in
      let e := fresh "e" in
      destruct (respond E c s) as [x e]; cbn [fst snd world this trace]
  end.

(** Bringing a trace to the form [trace w ++ new]. *)
Ltac flatten_trace :=
  cbn [fst snd world this trace]; rewrite <- ?app_assoc; cbn [app].

(** The actions of a run whose trace has been computed. *)
Ltac read_off :=
  unfold since; flatten_trace; rewrite ?skipn_prefix.

(** A goal about the trace of a run and about its actions: the second
    part is read off the first. *)
Ltac with_trace :=
  match goal with
  | |- trace ?w' = trace ?w ++ ?new /\ _ =>
      let H := fresh "Htrace" in
      assert (H : trace w' = trace w ++ new);
      [| split; [exact H | rewrite !(@since_appended _ w w' new H)]]
  end.

Section Properties.
Context {E : Env}.
Implicit Types (w : World E).

(** *** Disconnects that are not a 4014 closure *)

(** C1. A disconnect whose reason is not a websocket closure with code
    4014: with a reconnect-attempt counter [n] in 0..4 the handler waits
    [(n + 1) * 5000] milliseconds and then requests a rejoin, and does
    nothing else; with [n >= 5] all it does is destroy the connection,
    so no rejoin is requested. *)
Theorem disconnect_backoff w (oldState newState : VoiceConnection.State) :
  VoiceConnection.status newState = Disconnected ->
  ~ (VoiceConnection.reason newState = Some WebSocketClose
     /\ VoiceConnection.closeCode newState = Some 4014) ->
  let n := voiceConnection_rejoinAttempts (view E (world w)) in
  let w' := snd (voiceConnection_stateChange oldState newState w) in
  (0 <= n <= 4 ->
     trace w' = trace w ++ [Called (UtilWait ((n + 1) * 5000)); Called Rejoin])
  /\ (5 <= n ->
     trace w' = trace w ++ [Called Destroy]
     /\ existsb is_rejoin (since w w') = false).
Proof.
  intros Hstatus Hreason. cbv zeta.
  assert (Htest : (VoiceConnection.reason newState === Some WebSocketClose)
                  && (VoiceConnection.closeCode newState === Some 4014) = false).
  { apply not_true_is_false. rewrite close_4014_test. exact Hreason. }
  unfold voiceConnection_stateChange.
  rewrite Hstatus, strict_eq_refl, Htest.
  unfold_js.
  remember (voiceConnection_rejoinAttempts (view E (world w))) as n eqn:Hn.
  split; intros Hrange.
  - destruct (Z.ltb_spec n 5) as [_|Hge]; [|lia].
    answer. answer. subst n. flatten_trace. reflexivity.
  - destruct (Z.ltb_spec n 5) as [Hlt|_]; [lia|].
    with_trace; [answer; now destruct x as [[]|err] | reflexivity].
Qed.

(** *** Disconnects that are a 4014 closure *)

(** C2. A disconnect whose reason is a websocket closure with code 4014
    never takes the backoff path: the handler awaits, for 5000
    milliseconds at most, that the connection enters [Connecting], and
    destroys the connection exactly when that wait is rejected; it
    neither sleeps nor requests a rejoin. *)
Theorem disconnect_4014_single_wait w (oldState newState : VoiceConnection.State) :
  VoiceConnection.status newState = Disconnected ->
  VoiceConnection.reason newState = Some WebSocketClose ->
  VoiceConnection.closeCode newState = Some 4014 ->
  let w' := snd (voiceConnection_stateChange oldState newState w) in
  trace w' =
    trace w ++
    Called (EntersState Connecting 5000) ::
    match fst (respond E (EntersState Connecting 5000) (world w)) with
    | Returned _ => []
    | Raised _ => [Called Destroy]
    end
  /\ (existsb is_wait (since w w') = false
      /\ existsb is_rejoin (since w w') = false).
Proof.
  intros Hstatus Hreason Hcode. cbv zeta.
  unfold voiceConnection_stateChange.
  rewrite Hstatus, Hreason, Hcode, !strict_eq_refl. cbn [andb].
  with_trace.
  - unfold_js. answer.
    destruct x as [[]|err]; cbn [fst snd trace]; [reflexivity|].
    answer. flatten_trace. now destruct x as [[]|err'].
  - now destruct (fst (respond E (EntersState Connecting 5000) (world w))).
Qed.

(** *** The reentrancy guard *)

(** While the guard is held, a transition to [Connecting], [Signalling]
    or [Ready] is ignored altogether: the guard stays with its holder. *)
Lemma readyLock_held_skips w (oldState newState : VoiceConnection.State) :
  readyLock (this w) = true ->
  VoiceConnection.status newState <> Disconnected ->
  VoiceConnection.status newState <> Destroyed ->
  voiceConnection_stateChange oldState newState w = (Returned tt, w).
Proof.
  intros Hlock Hd Hx. unfold voiceConnection_stateChange.
  apply (proj2 (strict_eq_false _ _)) in Hd, Hx. rewrite Hd, Hx.
  unfold_js. rewrite Hlock. reflexivity.
Qed.

(** C4. A run of the handler that acquires the guard (the guard is free
    and the new status is [Connecting] or [Signalling]) ends with the
    guard free again, whether the wait for [Ready] succeeded, was
    rejected, or the destruction that follows a rejection threw, and
    whatever else ran meanwhile: releasing the guard is the last thing
    the run does.  The wait is for 20000 milliseconds at most; after a
    rejection the connection is destroyed unless its status is
    [Destroyed] by then. *)
Theorem readyLock_released w (oldState newState : VoiceConnection.State) :
  readyLock (this w) = false ->
  VoiceConnection.status newState = Connecting
  \/ VoiceConnection.status newState = Signalling ->
  let r := voiceConnection_stateChange oldState newState w in
  readyLock (this (snd r)) = false
  /\ match respond E (EntersState Ready 20000) (world w) with
     | (Returned _, _) =>
         fst r = Returned tt
         /\ trace (snd r) =
              trace w ++
              [Assigned_readyLock true;
               Called (EntersState Ready 20000);
               Assigned_readyLock false]
     | (Raised _, e) =>
         trace (snd r) =
           trace w ++
           [Assigned_readyLock true; Called (EntersState Ready 20000)] ++
           (if voiceConnection_status (view E e) === Destroyed
            then []
            else [Called Destroy]) ++
           [Assigned_readyLock false]
     end.
Proof.
  intros Hlock Hstatus. cbv zeta.
  assert (Hgate : (VoiceConnection.status newState === Disconnected) = false
                  /\ (VoiceConnection.status newState === Destroyed) = false
                  /\ (VoiceConnection.status newState === Connecting)
                     || (VoiceConnection.status newState === Signalling) = true).
  { destruct Hstatus as [-> | ->]; repeat split; reflexivity. }
  destruct Hgate as (Hd & Hx & Hc).
  unfold voiceConnection_stateChange. rewrite Hd, Hx, Hc.
  unfold_js. rewrite Hlock. cbn [negb andb this world trace].
  answer. destruct x as [[]|err]; cbn [fst snd this world trace readyLock].
  - flatten_trace. auto.
  - destruct (strict_eq (voiceConnection_status (view E e)) Destroyed) as [Heq|Hne];
      cbn [fst snd this world trace readyLock].
    + flatten_trace. auto.
    + answer.
      destruct x as [[]|err']; cbn [fst snd this world trace readyLock];
        flatten_trace; auto.
Qed.

(** *** The player reaching [Idle] *)

(** The handler on a transition to [Idle] from another status, by what
    the getter [paused] reads from the player at that moment: if that
    status is neither [Paused] nor [AutoPaused], the handler empties the
    current resource and then emits "finish", once, and does nothing
    else; if it is one of the two, the handler does nothing at all. *)
Lemma idle_finish w (oldState newState : AudioPlayer.State) :
  AudioPlayer.status newState = Idle ->
  AudioPlayer.status oldState <> Idle ->
  let s := audioPlayer_status (view E (world w)) in
  let r := audioPlayer_stateChange oldState newState w in
  (s <> Paused -> s <> AutoPaused ->
     trace (snd r) =
       trace w ++ [Assigned_audioResource None; Called (Emit EvFinish)]
     /\ emitted EvFinish (trace (snd r)) = S (emitted EvFinish (trace w))
     /\ (quiet E -> audioResource (this (snd r)) = None))
  /\ (s = Paused \/ s = AutoPaused -> r = (Returned tt, w)).
Proof.
  intros Hnew Hold. cbv zeta.
  unfold audioPlayer_stateChange.
  apply (proj2 (strict_neq_true _ _)) in Hold.
  rewrite Hnew, Hold, strict_eq_refl. cbn [andb].
  unfold_js. cbn [existsb].
  split.
  - intros Hp Ha.
    apply not_eq_sym, (proj2 (strict_eq_false _ _)) in Hp, Ha. rewrite Hp, Ha.
    cbn [orb negb]. answer. flatten_trace. repeat split.
    + unfold emitted. rewrite filter_app, length_app. cbn. lia.
    + intros Hquiet. now rewrite Hquiet.
  - intros [Hs | Hs]; rewrite Hs; reflexivity.
Qed.

(** C6. The player assigns its new state before it reports the change,
    so that the status the getter [paused] reads in the handler is the
    new one.  Then the getter answers [false] on every transition to
    [Idle], and the handler empties the current resource and emits
    "finish", once, whatever the old status was: also when the player
    was [Paused] or [AutoPaused], where the test of [paused] in the
    handler was to hold the event back. *)
Theorem finish_despite_pause w (oldState newState : AudioPlayer.State) :
  AudioPlayer.status newState = Idle ->
  AudioPlayer.status oldState <> Idle ->
  audioPlayer_status (view E (world w)) = AudioPlayer.status newState ->
  let r := audioPlayer_stateChange oldState newState w in
  paused w = (Returned false, w)
  /\ trace (snd r) =
       trace w ++ [Assigned_audioResource None; Called (Emit EvFinish)]
  /\ emitted EvFinish (trace (snd r)) = S (emitted EvFinish (trace w))
  /\ (quiet E -> audioResource (this (snd r)) = None).
Proof.
  intros Hnew Hold Hlive. cbv zeta. rewrite Hnew in Hlive.
  split.
  - unfold_js. rewrite Hlive. reflexivity.
  - apply (@idle_finish w oldState newState Hnew Hold); rewrite Hlive; discriminate.
Qed.

(** *** Disconnecting *)

(** C7. [disconnect] destroys the connection and never raises to its
    caller, whatever the connection answers to its destruction; in
    particular a second call right after a first returns normally as
    well. *)
Theorem disconnect_never_raises w :
  fst (disconnect w) = Returned tt
  /\ trace (snd (disconnect w)) = trace w ++ [Called Destroy]
  /\ fst ((disconnect ;; disconnect) w) = Returned tt.
Proof.
  assert (Hone : forall w0 : World E, fst (disconnect w0) = Returned tt).
  { intros w0. unfold_js. answer. now destruct x as [[]|err]. }
  split; [apply Hone|].
  split; [unfold_js; answer; now destruct x as [[]|err]|].
  unfold bind. pose proof (Hone w) as Hfirst.
  destruct (disconnect w) as [o w1]. cbn [fst] in Hfirst. subst o.
  apply Hone.
Qed.

(** *** Playing *)

(** [playStream] with a resource at hand is the rest of its body. *)
Lemma playStream_chosen w (arg : option AudioResource) (r : AudioResource) :
  chosen arg (this w) = Some r ->
  playStream arg w =
  (current <- get_audioResource ;;
   match current with
   | None => set_audioResource (Some r)
   | Some _ => ret tt
   end ;;
   s <- read voiceConnection_status ;;
   (if s !== Ready then entersState Ready 20000 else ret tt) ;;
   o <- call (Play r) ;;
   settle o ;;
   ret tt) w.
Proof.
  intros Hsome. unfold playStream.
  destruct arg as [r'|]; cbn [chosen] in Hsome.
  - injection Hsome as ->. reflexivity.
  - unfold bind at 1. unfold get_audioResource at 1.
    rewrite Hsome. reflexivity.
Qed.

(** C5. Called without an argument while no resource is stored,
    [playStream] throws "Audio resource is not available!" and does
    nothing else: no call is made, so the player is not asked to play.
    With a resource at hand and a connection that is not [Ready], it
    first awaits [Ready] for 20000 milliseconds at most; if the wait
    succeeds the player is then asked to play that resource, and if the
    wait is rejected the rejection is the result of [playStream] and the
    player is not called. *)
Theorem playStream_unavailable_or_waits w (arg : option AudioResource) :
  (chosen arg (this w) = None ->
     playStream arg w = (Raised (Error "Audio resource is not available!"), w))
  /\ (forall r,
        chosen arg (this w) = Some r ->
        voiceConnection_status (view E (world w)) <> Ready ->
        let res := playStream arg w in
        let stored :=
          match audioResource (this w) with
          | None => [Assigned_audioResource (Some r)]
          | Some _ => []
          end in
        match fst (respond E (EntersState Ready 20000) (world w)) with
        | Returned _ =>
            trace (snd res) =
              trace w ++ stored
              ++ [Called (EntersState Ready 20000); Called (Play r)]
        | Raised e =>
            fst res = Raised e
            /\ (trace (snd res) =
                  trace w ++ stored ++ [Called (EntersState Ready 20000)]
                /\ existsb is_play (since w (snd res)) = false)
        end).
Proof.
  split.
  - intros Hnone. unfold playStream.
    destruct arg as [r|]; cbn [chosen] in Hnone; [discriminate|].
    unfold_js. rewrite Hnone. reflexivity.
  - intros r Hsome Hstatus. cbv zeta.
    apply (proj2 (strict_neq_true _ _)) in Hstatus.
    rewrite (playStream_chosen _ _ Hsome).
    unfold_js.
    destruct (audioResource (this w)) as [r0|]; cbn [this world trace];
      rewrite Hstatus; answer;
      destruct x as [[]|err]; cbn [fst snd this world trace].
    + answer. flatten_trace. now destruct x as [[]|err'].
    + repeat split; read_off; reflexivity.
    + answer. flatten_trace. now destruct x as [[]|err'].
    + repeat split; read_off; reflexivity.
Qed.

(** C9. [playStream] with an explicit resource [r] hands [r] to the
    player and assigns the current resource only when there is none:
    with a resource stored, the run assigns no field of the dispatcher,
    so that the stored resource is the same at the end unless other
    code replaced it meanwhile; with none stored, [r] is stored, first
    thing. *)
Theorem playStream_keeps_current w (r : AudioResource) :
  let res := playStream (Some r) w in
  let waited := voiceConnection_status (view E (world w)) !== Ready in
  let settled := fst (respond E (EntersState Ready 20000) (world w)) in
  trace (snd res) =
    trace w
    ++ match audioResource (this w) with
       | Some current => []
       | None => [Assigned_audioResource (Some r)]
       end
    ++ (if waited then [Called (EntersState Ready 20000)] else [])
    ++ match waited, settled with
       | true, Raised _ => []
       | _, _ => [Called (Play r)]
       end
  /\ (audioResource (this w) <> None ->
      existsb is_assignment (since w (snd res)) = false)
  /\ (quiet E -> audioResource (this w) <> None -> this (snd res) = this w)
  /\ (quiet E -> audioResource (this w) = None ->
      this (snd res) = {| audioResource := Some r; readyLock := readyLock (this w) |}).
Proof.
  cbv zeta.
  assert (Htrace :
    trace (snd (playStream (Some r) w)) =
      trace w
      ++ match audioResource (this w) with
         | Some current => []
         | None => [Assigned_audioResource (Some r)]
         end
      ++ (if voiceConnection_status (view E (world w)) !== Ready
          then [Called (EntersState Ready 20000)] else [])
      ++ match voiceConnection_status (view E (world w)) !== Ready,
               fst (respond E (EntersState Ready 20000) (world w)) with
         | true, Raised _ => []
         | _, _ => [Called (Play r)]
         end).
  { unfold playStream. unfold_js.
    destruct (audioResource (this w)) as [r0|]; cbn [this world trace];
      destruct (strict_eq (voiceConnection_status (view E (world w))) Ready);
      repeat (answer; try destruct x as [[]|err]);
      flatten_trace; reflexivity. }
  split; [exact Htrace|].
  split; [|split].
  - intros Hcurrent. rewrite (@since_appended _ _ _ _ Htrace).
    destruct (audioResource (this w)) as [r0|]; [|congruence].
    destruct (voiceConnection_status (view E (world w)) !== Ready);
      [destruct (fst (respond E (EntersState Ready 20000) (world w)))|];
      reflexivity.
  - intros Hquiet Hcurrent. unfold playStream. unfold_js.
    destruct (audioResource (this w)) as [r0|]; [|congruence].
    destruct (strict_eq (voiceConnection_status (view E (world w))) Ready);
      repeat (answer; try destruct x as [[]|err]);
      rewrite ?Hquiet; reflexivity.
  - intros Hquiet Hnone. unfold playStream. unfold_js.
    rewrite Hnone. cbn [this world trace].
    destruct (strict_eq (voiceConnection_status (view E (world w))) Ready);
      repeat (answer; try destruct x as [[]|err]);
      rewrite ?Hquiet; reflexivity.
Qed.

(** *** The volume *)

(** No number is greater than [Infinity]: the last test of the guard of
    [setVolume] never holds. *)
Lemma nothing_exceeds_Infinity (v : number) : number_gt v Infinity = false.
Proof. destruct v as [s|s| |s m e]; try destruct s; reflexivity. Qed.

(** What [setVolume] does, case by case. *)
Lemma setVolume_cases w (v : number) :
  setVolume v w =
  match audioResource (this w) with
  | None => (Returned false, w)
  | Some r =>
      if isNaN v || number_lt v zero then (Returned false, w)
      else
        match volume r with
        | None =>
            (Raised (TypeError
               "Cannot read properties of undefined (reading 'setVolumeLogarithmic')"),
             w)
        | Some vt =>
            let c := SetVolumeLogarithmic vt (number_div v hundred) in
            let e := snd (respond E c (world w)) in
            (Returned true,
             {| this := meanwhile E e (this w); world := e;
                trace := trace w ++ [Called c] |})
        end
  end.
Proof.
  unfold setVolume. unfold_js.
  destruct (audioResource (this w)) as [r|]; [|reflexivity].
  rewrite nothing_exceeds_Infinity, orb_false_r.
  destruct (isNaN v || number_lt v zero); [reflexivity|].
  destruct (volume r) as [vt|]; [|reflexivity].
  now destruct (respond E _ (world w)).
Qed.

(** [setVolume] answers [false] exactly when no resource is stored, or
    the value is NaN, or the value is below zero. *)
Lemma setVolume_false_iff w (v : number) :
  fst (setVolume v w) = Returned false
  <-> audioResource (this w) = None \/ isNaN v = true \/ number_lt v zero = true.
Proof.
  rewrite setVolume_cases.
  destruct (audioResource (this w)) as [r|]; cbn [fst].
  - destruct (isNaN v) eqn:Hnan, (number_lt v zero) eqn:Hneg; cbn [orb fst];
      try (split; [auto|reflexivity]).
    destruct (volume r); cbn [fst];
      (split; [discriminate | intros [H|[H|H]]; discriminate H]).
  - split; auto.
Qed.

(** When it answers [false] it has done nothing. *)
Lemma setVolume_false_unchanged w (v : number) :
  fst (setVolume v w) = Returned false -> setVolume v w = (Returned false, w).
Proof.
  rewrite setVolume_cases.
  destruct (audioResource (this w)) as [r|]; [|reflexivity].
  destruct (isNaN v || number_lt v zero); [reflexivity|].
  destruct (volume r); cbn [fst]; discriminate.
Qed.

(** C3. With a resource loaded, [setVolume(Infinity)] is not rejected:
    it answers [true] and hands [Infinity / 100], that is [Infinity], to
    the logarithmic volume control. *)
Theorem setVolume_accepts_Infinity w (r : AudioResource) (vt : VolumeTransformer) :
  audioResource (this w) = Some r ->
  volume r = Some vt ->
  fst (setVolume Infinity w) = Returned true
  /\ trace (snd (setVolume Infinity w)) =
       trace w ++ [Called (SetVolumeLogarithmic vt Infinity)].
Proof.
  intros Hr Hvt. rewrite setVolume_cases, Hr, Hvt. cbn. auto.
Qed.

End Properties.

(** ** Further properties of the dispatcher *)

(** Case analysis on everything a run of a handler depends on. *)
Ltac explore :=
  repeat first
    [ progress cbn [fst snd world this trace negb andb orb]
    | match goal with
      | |- context [respond ?E ?c ?s] =>
          let x := fresh "x" in
          let e := fresh "e" in
          destruct (respond E c s) as [x e];
          match type of x with
          | Outcome _ => destruct x as [[]|?]
          | _ => idtac
          end
      | |- context [strict_eq ?a ?b] => destruct (strict_eq a b)
      | |- context [Z.ltb ?a ?b] => destruct (Z.ltb a b)
      | |- context [readyLock (this ?w)] =>
          is_var w; destruct (readyLock (this w)) eqn:?
      end ].

(** The actions of a run whose trace has been computed, possibly none. *)
Ltac read_actions :=
  unfold since; flatten_trace; rewrite ?skipn_prefix, ?skipn_all.

Section Further.
Context {E : Env}.
Implicit Types (w : World E).

(** *** The connection's [stateChange], all cases *)

(** X1. When the connection reports [Destroyed] the handler stops the
    player, and that is all it does; it returns normally whatever the
    player answers, and whether or not the guard is held. *)
Theorem destroyed_stops_player w (oldState newState : VoiceConnection.State) :
  VoiceConnection.status newState = Destroyed ->
  let r := voiceConnection_stateChange oldState newState w in
  fst r = Returned tt
  /\ trace (snd r) = trace w ++ [Called Stop].
Proof.
  intros Hstatus. cbv zeta. unfold voiceConnection_stateChange.
  rewrite Hstatus. cbn [strict_eq VoiceConnectionStatus_eq]. cbn.
  unfold_js. answer. auto.
Qed.

(** X2. A transition is ignored altogether, with no call and no
    assignment, when the new status is [Ready], and also when the guard
    is held and the new status is neither [Disconnected] nor
    [Destroyed]. *)
Theorem stateChange_ignored w (oldState newState : VoiceConnection.State) :
  VoiceConnection.status newState = Ready
  \/ (readyLock (this w) = true
      /\ VoiceConnection.status newState <> Disconnected
      /\ VoiceConnection.status newState <> Destroyed) ->
  voiceConnection_stateChange oldState newState w = (Returned tt, w).
Proof.
  intros [Hready | (Hlock & Hd & Hx)].
  - unfold voiceConnection_stateChange. rewrite Hready. cbn.
    unfold_js. now destruct (readyLock (this w)).
  - now apply readyLock_held_skips.
Qed.

(** X3. Whatever the new state, a run of the handler assigns no field of
    the dispatcher, or else it found the guard free and acquires and
    releases it, in that order and once; so when no other code runs
    meanwhile, the dispatcher's fields are at the end what they were at
    the start. *)
Theorem stateChange_assignments w (oldState newState : VoiceConnection.State) :
  let w' := snd (voiceConnection_stateChange oldState newState w) in
  (filter is_assignment (since w w') = []
   \/ (readyLock (this w) = false
       /\ filter is_assignment (since w w')
          = [Assigned_readyLock true; Assigned_readyLock false]))
  /\ (quiet E -> this w' = this w).
Proof.
  cbv zeta. unfold voiceConnection_stateChange.
  split.
  - destruct (VoiceConnection.status newState); cbn;
      try destruct ((VoiceConnection.reason newState === Some WebSocketClose)
                    && (VoiceConnection.closeCode newState === Some 4014));
      unfold_js; explore; read_actions; cbn; auto.
  - intros Hquiet.
    destruct (VoiceConnection.status newState); cbn;
      try destruct ((VoiceConnection.reason newState === Some WebSocketClose)
                    && (VoiceConnection.closeCode newState === Some 4014));
      unfold_js; explore; rewrite ?Hquiet; try reflexivity;
      destruct (this w) as [res lock]; cbn in *; congruence.
Qed.

(** X4. A run of the handler never asks the player to play, never emits
    an event, never assigns the current resource, and never both
    destroys the connection and asks it to rejoin. *)
Theorem stateChange_never w (oldState newState : VoiceConnection.State) :
  let done := since w (snd (voiceConnection_stateChange oldState newState w)) in
  existsb is_play done = false
  /\ existsb is_emission done = false
  /\ existsb assigns_audioResource done = false
  /\ existsb is_rejoin done && existsb is_destroy done = false.
Proof.
  cbv zeta. unfold voiceConnection_stateChange.
  destruct (VoiceConnection.status newState); cbn;
    try destruct ((VoiceConnection.reason newState === Some WebSocketClose)
                  && (VoiceConnection.closeCode newState === Some 4014));
    unfold_js; explore; read_actions; cbn; auto.
Qed.

(** *** The player's [stateChange], the other cases *)

(** X5. When the player reports [Playing] and its status is neither
    [Paused] nor [AutoPaused], the handler emits "start", once, and does
    nothing else: no "finish", no assignment.  If the status is one of
    the two, it does nothing at all. *)
Theorem playing_start w (oldState newState : AudioPlayer.State) :
  AudioPlayer.status newState = Playing ->
  let s := audioPlayer_status (view E (world w)) in
  let r := audioPlayer_stateChange oldState newState w in
  (s <> Paused -> s <> AutoPaused ->
     fst r = Returned tt
     /\ trace (snd r) = trace w ++ [Called (Emit EvStart)]
     /\ emitted EvStart (trace (snd r)) = S (emitted EvStart (trace w))
     /\ emitted EvFinish (trace (snd r)) = emitted EvFinish (trace w))
  /\ (s = Paused \/ s = AutoPaused -> r = (Returned tt, w)).
Proof.
  intros Hnew. cbv zeta. unfold audioPlayer_stateChange.
  rewrite Hnew, strict_eq_refl.
  rewrite (proj2 (strict_eq_false Playing Idle)) by discriminate.
  cbn [andb]. unfold_js. cbn [existsb].
  split.
  - intros Hp Ha.
    apply not_eq_sym, (proj2 (strict_eq_false _ _)) in Hp, Ha. rewrite Hp, Ha.
    cbn [orb negb]. answer. flatten_trace.
    unfold emitted. rewrite !filter_app, !length_app. cbn.
    repeat split; lia.
  - intros [Hs | Hs]; rewrite Hs; reflexivity.
Qed.

(** X6. Every other transition of the player is passed over in silence:
    when the new status is not [Playing], and either is not [Idle] or
    the old status was [Idle] already, the handler does nothing.  In
    particular a player that stays [Idle] does not finish twice. *)
Theorem stateChange_silent w (oldState newState : AudioPlayer.State) :
  AudioPlayer.status newState <> Playing ->
  AudioPlayer.status newState <> Idle \/ AudioPlayer.status oldState = Idle ->
  audioPlayer_stateChange oldState newState w = (Returned tt, w).
Proof.
  intros Hplaying Hidle. unfold audioPlayer_stateChange.
  destruct (AudioPlayer.status newState), (AudioPlayer.status oldState);
    cbn; try reflexivity; try congruence;
    destruct Hidle; congruence.
Qed.

(** X7. The handler of the player's [stateChange] only ever emits: it
    calls no method of the connection or of the player, never assigns
    the guard, and emits at most one event per transition. *)
Theorem player_stateChange_never w (oldState newState : AudioPlayer.State) :
  let done := since w (snd (audioPlayer_stateChange oldState newState w)) in
  existsb is_library_call done = false
  /\ existsb assigns_readyLock done = false
  /\ (List.length (filter is_emission done) <= 1)%nat.
Proof.
  cbv zeta. unfold audioPlayer_stateChange.
  destruct (AudioPlayer.status newState), (AudioPlayer.status oldState);
    unfold_js; cbn [existsb]; explore; try congruence;
    read_actions; cbn; auto.
Qed.

(** *** Creating and playing *)


(** X9. [playStream()] right after [createStream] works with the
    resource just created, whatever was stored before and whatever the
    library does: it awaits [Ready] if the connection is not, and hands
    that resource to the player unless the wait is rejected. *)
Theorem createStream_then_playStream w (src : Source) (ops : option StreamOptions) :
  let created := createStream src ops w in
  let res := (createStream src ops ;; playStream None) w in
  forall r, fst created = Returned r ->
  let waited :=
    voiceConnection_status (view E (world (snd created))) !== Ready in
  let settled :=
    fst (respond E (EntersState Ready 20000) (world (snd created))) in
  trace (snd res) =
    trace (snd created)
    ++ (if waited then [Called (EntersState Ready 20000)] else [])
    ++ match waited, settled with
       | true, Raised _ => []
       | _, _ => [Called (Play r)]
       end.
Proof.
  cbv zeta. intros r.
  unfold bind at 1.
  assert (Hstored : forall r', fst (createStream src ops w) = Returned r' ->
                    audioResource (this (snd (createStream src ops w))) = Some r').
  { intros r'. unfold createStream. unfold_js. answer.
    intros Hr. injection Hr as ->. reflexivity. }
  specialize (Hstored r).
  destruct (createStream src ops w) as [o w1]. cbn [fst snd] in *.
  intros Ho. subst o. specialize (Hstored eq_refl).
  rewrite (@playStream_chosen E w1 None r Hstored).
  unfold_js. rewrite Hstored.
  destruct (strict_eq (voiceConnection_status (view E (world w1))) Ready);
    repeat (answer; try destruct x as [[]|err]);
    flatten_trace; rewrite ?app_nil_r; reflexivity.
Qed.

(** X10. On a connection that is [Ready], [playStream] does not wait:
    with a resource at hand it asks the player to play at once, and its
    result is the player's: if [play] throws, so does [playStream]. *)
Theorem playStream_ready w (arg : option AudioResource) (r : AudioResource) :
  chosen arg (this w) = Some r ->
  voiceConnection_status (view E (world w)) = Ready ->
  let res := playStream arg w in
  trace (snd res) =
    trace w
    ++ match audioResource (this w) with
       | None => [Assigned_audioResource (Some r)]
       | Some _ => []
       end
    ++ [Called (Play r)]
  /\ fst res =
       match fst (respond E (Play r) (world w)) with
       | Returned _ => Returned tt
       | Raised e => Raised e
       end.
Proof.
  intros Hsome Hready. cbv zeta.
  rewrite (playStream_chosen _ _ Hsome).
  unfold_js.
  destruct (audioResource (this w)) as [r0|]; cbn [this world trace];
    rewrite Hready;
    (destruct (strict_eq Ready Ready) as [_|Hne]; [|congruence]);
    answer; flatten_trace; now destruct x as [[]|err].
Qed.

(** X11. Once a track has finished (the player went to [Idle] from
    another status while not paused) and nothing else has stored a
    resource, there is nothing to play and nothing to set the volume
    of: [playStream()] throws "Audio resource is not available!" and
    [setVolume] answers [false] for every value, both without a call. *)
Theorem finished_unavailable w (oldState newState : AudioPlayer.State) :
  quiet E ->
  AudioPlayer.status newState = Idle ->
  AudioPlayer.status oldState <> Idle ->
  audioPlayer_status (view E (world w)) <> Paused ->
  audioPlayer_status (view E (world w)) <> AutoPaused ->
  let w' := snd (audioPlayer_stateChange oldState newState w) in
  playStream None w' = (Raised (Error "Audio resource is not available!"), w')
  /\ forall v, setVolume v w' = (Returned false, w').
Proof.
  intros Hquiet Hnew Hold Hp Ha. cbv zeta.
  assert (Hnone :
    audioResource (this (snd (audioPlayer_stateChange oldState newState w))) = None).
  { unfold audioPlayer_stateChange.
    apply (proj2 (strict_neq_true _ _)) in Hold.
    rewrite Hnew, Hold, strict_eq_refl. cbn [andb].
    unfold_js. cbn [existsb].
    apply not_eq_sym, (proj2 (strict_eq_false _ _)) in Hp, Ha. rewrite Hp, Ha.
    cbn [orb negb]. answer. now rewrite Hquiet. }
  split.
  - unfold playStream. unfold_js. now rewrite Hnone.
  - intros v. now rewrite setVolume_cases, Hnone.
Qed.

(** *** The volume, once more *)

(** X12. [setVolume] rejects without doing anything when no resource is
    stored, when the value is NaN, and when the value is below zero
    (minus infinity included): it answers [false], makes no call and
    assigns nothing. *)
Theorem setVolume_rejects w (v : number) :
  audioResource (this w) = None \/ isNaN v = true \/ number_lt v zero = true ->
  setVolume v w = (Returned false, w).
Proof.
  intros H. apply setVolume_false_unchanged, setVolume_false_iff, H.
Qed.

End Further.

(** *** The level handed to the volume control *)

Lemma shr_1_nonneg (mrs : shr_record) :
  0 <= shr_m mrs -> 0 <= shr_m (shr_1 mrs).
Proof.
  destruct mrs as [m r s]. cbn [shr_m].
  destruct m as [|p|p]; [intros _; cbn; lia | | lia].
  intros _. destruct p; cbn; lia.
Qed.

Lemma iter_shr_1_nonneg (p : positive) :
  forall mrs, 0 <= shr_m mrs -> 0 <= shr_m (iter_pos shr_1 p mrs).
Proof.
  induction p as [p IH|p IH|]; intros mrs H; cbn [iter_pos].
  - apply IH, IH, shr_1_nonneg, H.
  - apply IH, IH, H.
  - apply shr_1_nonneg, H.
Qed.

Lemma shr_nonneg (mrs : shr_record) (e n : Z) :
  0 <= shr_m mrs -> 0 <= shr_m (fst (shr mrs e n)).
Proof.
  intros H. destruct n; cbn [shr fst]; auto using iter_shr_1_nonneg.
Qed.

Lemma shr_fexp_nonneg (prec emax m e : Z) (l : location) :
  0 <= m -> 0 <= shr_m (fst (shr_fexp prec emax m e l)).
Proof.
  intros H. unfold shr_fexp. apply shr_nonneg.
  destruct l as [|[]]; exact H.
Qed.

Lemma round_nearest_even_nonneg (m : Z) (l : location) :
  0 <= m -> 0 <= round_nearest_even m l.
Proof.
  intros H. destruct l as [|[]]; cbn [round_nearest_even]; try lia.
  destruct (Z.even m); lia.
Qed.

(** Rounding a non-negative mantissa with a positive sign gives a
    number, and not one below zero. *)
Lemma binary_round_aux_level (prec emax mx ex : Z) (lx : location) :
  0 <= mx ->
  isNaN (binary_round_aux prec emax false mx ex lx) = false
  /\ number_lt (binary_round_aux prec emax false mx ex lx) zero = false.
Proof.
  intros H. unfold binary_round_aux.
  pose proof (@shr_fexp_nonneg prec emax mx ex lx H) as H1.
  destruct (shr_fexp prec emax mx ex lx) as [mrs' e']. cbn [fst] in H1.
  pose proof (@shr_fexp_nonneg prec emax _ e' loc_Exact
                (@round_nearest_even_nonneg _ (loc_of_shr_record mrs') H1)) as H2.
  destruct (shr_fexp prec emax _ e' loc_Exact) as [mrs'' e'']. cbn [fst] in H2.
  destruct (shr_m mrs'') as [|m|m]; [split; reflexivity | | lia].
  destruct (e'' <=? emax - prec); split; reflexivity.
Qed.

Lemma SFdiv_core_nonneg (prec emax : Z) (m1 m2 : positive) (e1 e2 : Z) :
  0 <= fst (fst (SFdiv_core_binary prec emax (Zpos m1) e1 (Zpos m2) e2)).
Proof.
  unfold SFdiv_core_binary.
  set (s := _ - _ - Z.min _ _).
  set (m' := match s with Z0 => _ | Zpos _ => _ | Zneg _ => _ end).
  assert (Hm : 0 <= m').
  { subst m'. destruct s; try lia. apply Z.shiftl_nonneg. lia. }
  pose proof (Z.div_pos m' (Zpos m2) Hm eq_refl) as Hq.
  unfold Z.div in Hq. destruct (Z.div_eucl m' (Zpos m2)) as [q r].
  exact Hq.
Qed.

(** A value that passes the guard of [setVolume] is scaled to a level
    that passes it too. *)
Lemma level_passes (v : number) :
  isNaN v = false -> number_lt v zero = false ->
  isNaN (number_div v hundred) = false
  /\ number_lt (number_div v hundred) zero = false.
Proof.
  intros Hnan Hneg.
  destruct v as [s|s| |s m e]; try discriminate.
  - destruct s; split; reflexivity.
  - destruct s; [discriminate|]. split; reflexivity.
  - destruct s; [discriminate|].
    unfold number_div, hundred, SFdiv. cbn [xorb].
    pose proof (SFdiv_core_nonneg 53 1024 m 7036874417766400 e (-46)) as Hq.
    destruct (SFdiv_core_binary 53 1024 (Z.pos m) e _ _) as [[mz ez] lz].
    apply binary_round_aux_level. exact Hq.
Qed.

Section Level.
Context {E : Env}.
Implicit Types (w : World E).

(** X13. When [setVolume] answers [true], a resource with a volume
    control is stored, the one thing done is to hand the value divided
    by 100 to that control, and the level handed over is a number that
    is not below zero: the control never receives NaN or a negative
    level from the dispatcher. *)
Theorem setVolume_level w (v : number) :
  fst (setVolume v w) = Returned true ->
  exists r vt,
    audioResource (this w) = Some r
    /\ volume r = Some vt
    /\ trace (snd (setVolume v w)) =
         trace w ++ [Called (SetVolumeLogarithmic vt (number_div v hundred))]
    /\ isNaN (number_div v hundred) = false
    /\ number_lt (number_div v hundred) zero = false.
Proof.
  rewrite setVolume_cases.
  destruct (audioResource (this w)) as [r|]; [|discriminate].
  destruct (isNaN v) eqn:Hnan; [discriminate|].
  destruct (number_lt v zero) eqn:Hneg; [discriminate|].
  cbn [orb]. destruct (volume r) as [vt|] eqn:Hvt; [|discriminate].
  intros _. exists r, vt.
  split; [reflexivity|]. split; [exact Hvt|]. split; [reflexivity|].
  now apply level_passes.
Qed.

End Level.


(** ** Properties of the helpers of [Util] *)

Module UtilProperties.
Import Util.

(** *** The matcher against the patterns' meaning *)

Lemma matches_Eps s : matches Eps s <-> s = [].
Proof. split; [intros H; now inversion H | intros ->; constructor]. Qed.

Lemma matches_Class p s : matches (Class p) s <-> exists c, s = [c] /\ p c = true.
Proof.
  split.
  - intros H; inversion H; subst; eauto.
  - intros (c & -> & H); now constructor.
Qed.

Lemma matches_Cat r1 r2 s :
  matches (Cat r1 r2) s <-> exists s1 s2, s = s1 ++ s2 /\ matches r1 s1 /\ matches r2 s2.
Proof.
  split.
  - intros H; inversion H; subst; eauto.
  - intros (s1 & s2 & -> & H1 & H2); now constructor.
Qed.

Lemma matches_Alt r1 r2 s :
  matches (Alt r1 r2) s <-> matches r1 s \/ matches r2 s.
Proof.
  split.
  - intros H; inversion H; subst; auto.
  - intros [H|H]; [now apply MAltL | now apply MAltR].
Qed.

Lemma nullable_spec r : nullable r = true <-> matches r [].
Proof.
  induction r as [| |p|r1 IH1 r2 IH2|r1 IH1 r2 IH2|r IH]; cbn [nullable].
  - split; [discriminate | intros H; inversion H].
  - split; [constructor | reflexivity].
  - split; [discriminate | intros H; inversion H].
  - rewrite andb_true_iff, IH1, IH2, matches_Cat. split.
    + intros [H1 H2]. exists [], []. auto.
    + intros (s1 & s2 & Hs & H1 & H2).
      symmetry in Hs. apply app_eq_nil in Hs as [-> ->]. auto.
  - rewrite orb_true_iff, IH1, IH2, matches_Alt. tauto.
  - split; [constructor | reflexivity].
Qed.

Lemma cat_spec r1 r2 s : matches (cat r1 r2) s <-> matches (Cat r1 r2) s.
Proof.
  rewrite matches_Cat.
  destruct r1, r2; cbn [cat]; try (rewrite matches_Cat; reflexivity);
    try (split; [intros H; now inversion H
                | intros (s1 & s2 & _ & H1 & H2); (now inversion H1) || (now inversion H2)]);
    (split; [intros H; exists [], s; repeat split; [constructor | exact H]
            | intros (s1 & s2 & -> & H1 & H2); inversion H1; subst; exact H2]).
Qed.

Lemma alt_spec r1 r2 s : matches (alt r1 r2) s <-> matches (Alt r1 r2) s.
Proof.
  rewrite matches_Alt.
  destruct r1, r2; cbn [alt]; try (rewrite matches_Alt; reflexivity);
    (split; [auto | intros [H|H]; (now inversion H) || exact H]).
Qed.

Lemma matches_Star_cons r c s :
  matches (Star r) (c :: s) ->
  exists s1 s2, s = s1 ++ s2 /\ matches r (c :: s1) /\ matches (Star r) s2.
Proof.
  intros H. remember (Star r) as r' eqn:Hr. remember (c :: s) as s' eqn:Hs.
  revert c s Hs.
  induction H as [| | | | | |r0 s1 s2 H1 _ H2 IH2]; try discriminate.
  injection Hr as ->. intros c s Hs.
  destruct s1 as [|c1 s1].
  - cbn in Hs. apply IH2; auto.
  - cbn in Hs. injection Hs as -> <-. eauto.
Qed.

Lemma deriv_spec c r : forall s, matches (deriv c r) s <-> matches r (c :: s).
Proof.
  induction r as [| |p|r1 IH1 r2 IH2|r1 IH1 r2 IH2|r IH]; intros s; cbn [deriv].
  - split; intros H; inversion H.
  - split; intros H; inversion H.
  - rewrite matches_Class. destruct (p c) eqn:Hp.
    + rewrite matches_Eps. split.
      * intros ->. eauto.
      * intros (c' & Hs & _). now injection Hs.
    + split; [intros H; inversion H|].
      intros (c' & Hs & Hp'). injection Hs as -> _. congruence.
  - rewrite alt_spec, matches_Alt, cat_spec, !matches_Cat. split.
    + intros [(s1 & s2 & -> & H1 & H2) | H].
      * exists (c :: s1), s2. rewrite <- IH1. auto.
      * destruct (nullable r1) eqn:Hn; [|inversion H].
        exists [], (c :: s). rewrite <- nullable_spec, <- IH2. auto.
    + intros (s1 & s2 & Hs & H1 & H2). destruct s1 as [|c1 s1].
      * cbn in Hs. subst s2. right.
        apply nullable_spec in H1. rewrite H1. now apply IH2.
      * cbn in Hs. injection Hs as <- ->. left.
        exists s1, s2. rewrite IH1. auto.
  - rewrite alt_spec, !matches_Alt, IH1, IH2. reflexivity.
  - rewrite cat_spec, matches_Cat. split.
    + intros (s1 & s2 & -> & H1 & H2). apply IH in H1.
      change (c :: s1 ++ s2) with ((c :: s1) ++ s2). now constructor.
    + intros H. apply matches_Star_cons in H as (s1 & s2 & -> & H1 & H2).
      exists s1, s2. rewrite IH. auto.
Qed.

Lemma match_prefix_spec s : forall r,
  match_prefix r s = true <-> exists s1 s2, s = s1 ++ s2 /\ matches r s1.
Proof.
  induction s as [|c s IH]; intros r; cbn [match_prefix].
  - rewrite orb_false_r, nullable_spec. split.
    + intros H. exists [], []. auto.
    + intros (s1 & s2 & Hs & H). symmetry in Hs.
      apply app_eq_nil in Hs as [-> _]. exact H.
  - rewrite orb_true_iff, nullable_spec, IH. split.
    + intros [H | (s1 & s2 & -> & H)].
      * exists [], (c :: s). auto.
      * exists (c :: s1), s2. rewrite <- deriv_spec. auto.
    + intros (s1 & s2 & Hs & H). destruct s1 as [|c1 s1].
      * now left.
      * cbn in Hs. injection Hs as <- ->. right.
        exists s1, s2. rewrite deriv_spec. auto.
Qed.

Lemma test_spec r s :
  test r s = true <-> exists pre m post, s = pre ++ m ++ post /\ matches r m.
Proof.
  induction s as [|c s IH]; cbn [test].
  - rewrite orb_false_r, match_prefix_spec. split.
    + intros (s1 & s2 & Hs & H). exists [], s1, s2. auto.
    + intros (pre & m & post & Hs & H). symmetry in Hs.
      apply app_eq_nil in Hs as [-> Hs]. apply app_eq_nil in Hs as [-> ->].
      exists [], []. auto.
  - rewrite orb_true_iff, match_prefix_spec, IH. split.
    + intros [(s1 & s2 & Hs & H) | (pre & m & post & -> & H)].
      * exists [], s1, s2. auto.
      * exists (c :: pre), m, post. auto.
    + intros (pre & m & post & Hs & H). destruct pre as [|c' pre].
      * left. exists m, post. auto.
      * cbn in Hs. injection Hs as <- ->. right. eauto.
Qed.

Lemma matches_lit l s : matches (lit l) s <-> s = l.
Proof.
  revert s. induction l as [|c l IH]; intros s; cbn [lit].
  - apply matches_Eps.
  - rewrite matches_Cat. split.
    + intros (s1 & s2 & -> & H1 & H2).
      apply matches_Class in H1 as (c' & -> & Hc). apply N.eqb_eq in Hc.
      apply IH in H2. now subst.
    + intros ->. exists [c], l. repeat split.
      * constructor. apply N.eqb_refl.
      * now apply IH.
Qed.

Lemma matches_opt r s : matches (opt r) s <-> matches r s \/ s = [].
Proof. unfold opt. now rewrite matches_Alt, matches_Eps. Qed.

Lemma matches_seq_nil s : matches (seq []) s <-> s = [].
Proof. apply matches_Eps. Qed.

Lemma matches_seq_cons r rs s :
  matches (seq (r :: rs)) s
  <-> exists s1 s2, s = s1 ++ s2 /\ matches r s1 /\ matches (seq rs) s2.
Proof. apply matches_Cat. Qed.

Lemma matches_Star_class p s :
  matches (Star (Class p)) s <-> forallb p s = true.
Proof.
  split.
  - intros H. remember (Star (Class p)) as r eqn:Hr.
    induction H as [| | | | | |r0 s1 s2 H1 _ H2 IH2]; try discriminate.
    + reflexivity.
    + injection Hr as ->. apply matches_Class in H1 as (c & -> & Hc).
      cbn. rewrite Hc. now apply IH2.
  - induction s as [|c s IH]; cbn [forallb]; intros H.
    + constructor.
    + apply andb_true_iff in H as [Hc Hs].
      change (c :: s) with ([c] ++ s). constructor; [now constructor | auto].
Qed.

Lemma matches_plus_class p s :
  matches (plus (Class p)) s <-> s <> [] /\ forallb p s = true.
Proof.
  unfold plus. rewrite matches_Cat. split.
  - intros (s1 & s2 & -> & H1 & H2).
    apply matches_Class in H1 as (c & -> & Hc).
    apply matches_Star_class in H2. cbn. rewrite Hc. split; [discriminate | exact H2].
  - intros [Hne H]. destruct s as [|c s]; [congruence|].
    cbn in H. apply andb_true_iff in H as [Hc Hs].
    exists [c], s. repeat split; [now constructor | now apply matches_Star_class].
Qed.

Lemma matches_exactly r p :
  (forall s, matches r s <-> exists c, s = [c] /\ p c = true) ->
  forall n s, matches (exactly n r) s <-> List.length s = n /\ forallb p s = true.
Proof.
  intros Hr. induction n as [|n IH]; intros s; cbn [exactly].
  - rewrite matches_Eps. split.
    + intros ->. auto.
    + intros [H _]. now destruct s.
  - rewrite matches_Cat. split.
    + intros (s1 & s2 & -> & H1 & H2).
      apply Hr in H1 as (c & -> & Hc). apply IH in H2 as [Hlen Hall].
      cbn. rewrite Hc, Hlen. auto.
    + intros [Hlen Hall]. destruct s as [|c s]; [discriminate|].
      cbn in Hlen, Hall. apply andb_true_iff in Hall as [Hc Hs].
      exists [c], s. repeat split.
      * apply Hr. eauto.
      * apply IH. split; [lia | exact Hs].
Qed.

Lemma matches_word_or_dash s :
  matches (Alt (Class is_word) (lit (js "-"))) s
  <-> exists c, s = [c] /\ id_symbol c = true.
Proof.
  rewrite matches_Alt, matches_Class, matches_lit. unfold id_symbol. split.
  - intros [(c & -> & Hc) | ->].
    + exists c. rewrite Hc. auto.
    + exists 45%N. split; [reflexivity|]. apply orb_true_r.
  - intros (c & -> & Hc). apply orb_true_iff in Hc as [Hc|Hc].
    + left. eauto.
    + right. apply N.eqb_eq in Hc. now subst.
Qed.

Lemma spotify_matches m :
  matches spotifySongRegex m
  <-> exists secure host form id,
        m = js "http" ++ secure ++ js "://" ++ host ++ js "spotify.com/"
            ++ form ++ id
        /\ (secure = [] \/ secure = js "s")
        /\ (host = js "embed." \/ host = js "open.")
        /\ (form = js "track/" \/ form = js "?uri=spotify:track:")
        /\ List.length id = 22%nat
        /\ forallb id_symbol id = true.
Proof.
  unfold spotifySongRegex. split.
  - intros H.
    apply matches_seq_cons in H as (s1 & m1 & -> & H1 & H).
    apply matches_seq_cons in H as (s2 & m2 & -> & H2 & H).
    apply matches_seq_cons in H as (s3 & m3 & -> & H3 & H).
    apply matches_seq_cons in H as (s4 & m4 & -> & H4 & H).
    apply matches_seq_cons in H as (s5 & m5 & -> & H5 & H).
    apply matches_seq_cons in H as (s6 & m6 & -> & H6 & H).
    apply matches_seq_cons in H as (s7 & m7 & -> & H7 & H).
    apply matches_seq_nil in H as ->.
    apply matches_lit in H1 as ->. apply matches_lit in H3 as ->.
    apply matches_lit in H5 as ->.
    apply matches_opt in H2. rewrite matches_lit in H2.
    apply matches_Alt in H4. rewrite !matches_lit in H4.
    apply matches_Alt in H6. rewrite !matches_lit in H6.
    apply (@matches_exactly _ _ matches_word_or_dash) in H7 as [Hlen Hall].
    exists s2, s4, s6, s7. rewrite app_nil_r. tauto.
  - intros (secure & host & form & id & -> & Hs & Hh & Hf & Hlen & Hall).
    apply matches_seq_cons. exists (js "http"), (secure ++ js "://" ++ host ++ js "spotify.com/" ++ form ++ id).
    split; [reflexivity|]. split; [now apply matches_lit|].
    apply matches_seq_cons. exists secure, (js "://" ++ host ++ js "spotify.com/" ++ form ++ id).
    split; [reflexivity|]. split; [apply matches_opt; rewrite matches_lit; tauto|].
    apply matches_seq_cons. exists (js "://"), (host ++ js "spotify.com/" ++ form ++ id).
    split; [reflexivity|]. split; [now apply matches_lit|].
    apply matches_seq_cons. exists host, (js "spotify.com/" ++ form ++ id).
    split; [reflexivity|]. split; [apply matches_Alt; rewrite !matches_lit; tauto|].
    apply matches_seq_cons. exists (js "spotify.com/"), (form ++ id).
    split; [reflexivity|]. split; [now apply matches_lit|].
    apply matches_seq_cons. exists form, id.
    split; [reflexivity|]. split; [apply matches_Alt; rewrite !matches_lit; tauto|].
    apply matches_seq_cons. exists id, [].
    split; [now rewrite app_nil_r|].
    split; [now apply (@matches_exactly _ _ matches_word_or_dash) | now apply matches_seq_nil].
Qed.

Lemma video_path_matches path :
  matches
    (Alt (seq [plus (Class not_slash); lit (js "/"); plus (Class dot); lit (js "/")])
       (Alt (seq [Alt (lit (js "v")) (seq [lit (js "e"); opt (lit (js "mbed"))]);
                  lit (js "/")])
          (seq [Star (Class dot); Class (one_of (js "?&")); lit (js "v=")])))
    path
  <-> video_path path.
Proof.
  unfold video_path. rewrite !matches_Alt. split.
  - intros [H | [H | H]].
    + left.
      apply matches_seq_cons in H as (s1 & m1 & -> & H1 & H).
      apply matches_seq_cons in H as (s2 & m2 & -> & H2 & H).
      apply matches_seq_cons in H as (s3 & m3 & -> & H3 & H).
      apply matches_seq_cons in H as (s4 & m4 & -> & H4 & H).
      apply matches_seq_nil in H as ->.
      apply matches_lit in H2 as ->. apply matches_lit in H4 as ->.
      apply matches_plus_class in H1 as [Hne1 Hall1].
      apply matches_plus_class in H3 as [Hne3 Hall3].
      exists s1, s3. rewrite app_nil_r. auto.
    + right.
      apply matches_seq_cons in H as (s1 & m1 & -> & H1 & H).
      apply matches_seq_cons in H as (s2 & m2 & -> & H2 & H).
      apply matches_seq_nil in H as ->.
      apply matches_lit in H2 as ->.
      apply matches_Alt in H1 as [H1 | H1].
      * apply matches_lit in H1 as ->. left. reflexivity.
      * apply matches_seq_cons in H1 as (t1 & n1 & -> & G1 & H1).
        apply matches_seq_cons in H1 as (t2 & n2 & -> & G2 & H1).
        apply matches_seq_nil in H1 as ->.
        apply matches_lit in G1 as ->.
        apply matches_opt in G2 as [G2 | ->].
        -- apply matches_lit in G2 as ->. right; right; left. reflexivity.
        -- right; left. reflexivity.
    + right; right; right; right.
      apply matches_seq_cons in H as (s1 & m1 & -> & H1 & H).
      apply matches_seq_cons in H as (s2 & m2 & -> & H2 & H).
      apply matches_seq_cons in H as (s3 & m3 & -> & H3 & H).
      apply matches_seq_nil in H as ->.
      apply matches_Star_class in H1.
      apply matches_Class in H2 as (sep & -> & Hsep).
      apply matches_lit in H3 as ->.
      exists s1, sep. rewrite app_nil_r. auto.
  - intros [(seg & rest & -> & Hne1 & Hall1 & Hne3 & Hall3)
           | [-> | [-> | [-> | (before & sep & -> & Hall & Hsep)]]]].
    + left.
      apply matches_seq_cons. exists seg, (js "/" ++ rest ++ js "/").
      split; [reflexivity|]. split; [now apply matches_plus_class|].
      apply matches_seq_cons. exists (js "/"), (rest ++ js "/").
      split; [reflexivity|]. split; [now apply matches_lit|].
      apply matches_seq_cons. exists rest, (js "/").
      split; [reflexivity|]. split; [now apply matches_plus_class|].
      apply matches_seq_cons. exists (js "/"), [].
      split; [reflexivity|]. split; [now apply matches_lit | now apply matches_seq_nil].
    + right; left.
      apply matches_seq_cons. exists (js "v"), (js "/").
      split; [reflexivity|]. split; [apply matches_Alt; left; now apply matches_lit|].
      apply matches_seq_cons. exists (js "/"), [].
      split; [reflexivity|]. split; [now apply matches_lit | now apply matches_seq_nil].
    + right; left.
      apply matches_seq_cons. exists (js "e"), (js "/").
      split; [reflexivity|]. split.
      * apply matches_Alt; right.
        apply matches_seq_cons. exists (js "e"), [].
        split; [reflexivity|]. split; [now apply matches_lit|].
        apply matches_seq_cons. exists [], [].
        split; [reflexivity|]. split; [apply matches_opt; now right | now apply matches_seq_nil].
      * apply matches_seq_cons. exists (js "/"), [].
        split; [reflexivity|]. split; [now apply matches_lit | now apply matches_seq_nil].
    + right; left.
      apply matches_seq_cons. exists (js "embed"), (js "/").
      split; [reflexivity|]. split.
      * apply matches_Alt; right.
        apply matches_seq_cons. exists (js "e"), (js "mbed").
        split; [reflexivity|]. split; [now apply matches_lit|].
        apply matches_seq_cons. exists (js "mbed"), [].
        split; [reflexivity|].
        split; [apply matches_opt; left; now apply matches_lit | now apply matches_seq_nil].
      * apply matches_seq_cons. exists (js "/"), [].
        split; [reflexivity|]. split; [now apply matches_lit | now apply matches_seq_nil].
    + right; right.
      apply matches_seq_cons. exists before, ([sep] ++ js "v=").
      split; [reflexivity|]. split; [now apply matches_Star_class|].
      apply matches_seq_cons. exists [sep], (js "v=").
      split; [reflexivity|]. split; [now apply matches_Class; eauto|].
      apply matches_seq_cons. exists (js "v="), [].
      split; [reflexivity|]. split; [now apply matches_lit | now apply matches_seq_nil].
Qed.

(** The video pattern as a whole. *)
Lemma youtube_matches m :
  matches youtubeVideoRegex m
  <-> exists route id,
        m = route ++ id
        /\ video_route route
        /\ List.length id = 11%nat
        /\ forallb id_char id = true.
Proof.
  unfold youtubeVideoRegex, video_route. split.
  - intros H.
    apply matches_seq_cons in H as (route & m1 & -> & H1 & H).
    apply matches_seq_cons in H as (id & m2 & -> & H2 & H).
    apply matches_seq_nil in H as ->.
    apply (@matches_exactly _ _ (matches_Class id_char)) in H2 as [Hlen Hall].
    exists route, id. rewrite app_nil_r.
    split; [reflexivity|]. split; [|auto].
    apply matches_Alt in H1 as [H1 | H1].
    + right.
      apply matches_seq_cons in H1 as (s1 & n1 & -> & G1 & H1).
      apply matches_seq_cons in H1 as (path & n2 & -> & G2 & H1).
      apply matches_seq_nil in H1 as ->.
      apply matches_lit in G1 as ->. apply video_path_matches in G2.
      exists path. rewrite app_nil_r. auto.
    + left. now apply matches_lit.
  - intros (route & id & -> & Hroute & Hlen & Hall).
    apply matches_seq_cons. exists route, id.
    split; [reflexivity|]. split.
    + apply matches_Alt. destruct Hroute as [-> | (path & -> & Hpath)].
      * right. now apply matches_lit.
      * left. apply matches_seq_cons. exists (js "youtube.com/"), path.
        split; [reflexivity|]. split; [now apply matches_lit|].
        apply matches_seq_cons. exists path, [].
        split; [now rewrite app_nil_r|].
        split; [now apply video_path_matches | now apply matches_seq_nil].
    + apply matches_seq_cons. exists id, [].
      split; [now rewrite app_nil_r|].
      split; [now apply (@matches_exactly _ _ (matches_Class id_char))
             | now apply matches_seq_nil].
Qed.

(** A match of either pattern has a length of its own. *)
Lemma matched_length r (bound : nat) :
  (forall m, matches r m -> (bound <= List.length m)%nat) ->
  forall query, test r query = true -> (bound <= List.length query)%nat.
Proof.
  intros Hr query H. apply test_spec in H as (pre & m & post & -> & H).
  apply Hr in H. rewrite !length_app. lia.
Qed.

Lemma isSpotifyLink_short query :
  isSpotifyLink query = true -> (52 <= List.length query)%nat.
Proof.
  apply matched_length. intros m H.
  apply spotify_matches in H as (secure & host & form & id & -> & _ & Hh & Hf & Hlen & _).
  rewrite !length_app, Hlen.
  destruct Hh as [-> | ->], Hf as [-> | ->]; cbn; lia.
Qed.

Lemma isYTVideoLink_short query :
  isYTVideoLink query = true -> (20 <= List.length query)%nat.
Proof.
  apply matched_length. intros m H.
  apply youtube_matches in H as (route & id & -> & Hroute & Hlen & _).
  rewrite length_app, Hlen.
  destruct Hroute as [-> | (path & -> & Hpath)]; [cbn; lia|].
  rewrite length_app.
  destruct Hpath as [(seg & rest & -> & Hseg & _ & Hrest & _)
                    | [-> | [-> | [-> | (before & sep & -> & _)]]]];
    rewrite ?length_app; cbn; lia.
Qed.

(** *** The helpers *)

(** X14. A voice channel counts as empty exactly when every member in
    it is a bot; in particular when nobody is in it. *)
Theorem isVoiceEmpty_iff (channel : VoiceChannel) :
  isVoiceEmpty channel = true
  <-> forall id member, In (id, member) (members channel) ->
                        bot (user member) = true.
Proof.
  unfold isVoiceEmpty. rewrite Nat.eqb_eq.
  induction (members channel) as [|[id0 m0] l IH]; cbn [filter snd].
  - split; [intros _ id member [] | reflexivity].
  - destruct (bot (user m0)) eqn:Hbot; cbn [negb List.length].
    + rewrite IH. split.
      * intros H id member [Heq | Hin]; [injection Heq as <- <-; exact Hbot | eauto].
      * intros H id member Hin. apply (H id member). now right.
    + split; [discriminate|].
      intros H. specialize (H id0 m0 (or_introl eq_refl)). congruence.
Qed.

(** X15. [isSpotifyLink] accepts exactly the queries that contain,
    anywhere, [http] or [https], [://], the host [embed.spotify.com] or
    [open.spotify.com], [/], then [track/] or [?uri=spotify:track:],
    and then 22 characters each of which is a letter, a digit, [_] or
    [-]; what precedes and what follows is not looked at. *)
Theorem isSpotifyLink_iff (query : jsstring) :
  isSpotifyLink query = true
  <-> exists pre secure host form id post,
        query = pre ++ (js "http" ++ secure ++ js "://" ++ host
                        ++ js "spotify.com/" ++ form ++ id) ++ post
        /\ (secure = [] \/ secure = js "s")
        /\ (host = js "embed." \/ host = js "open.")
        /\ (form = js "track/" \/ form = js "?uri=spotify:track:")
        /\ List.length id = 22%nat
        /\ forallb id_symbol id = true.
Proof.
  unfold isSpotifyLink. rewrite test_spec. split.
  - intros (pre & m & post & -> & H).
    apply spotify_matches in H as (secure & host & form & id & -> & H).
    exists pre, secure, host, form, id, post. auto.
  - intros (pre & secure & host & form & id & post & -> & H).
    eexists pre, _, post. split; [reflexivity|].
    apply spotify_matches. exists secure, host, form, id. auto.
Qed.

(** X16. [isYTVideoLink] accepts exactly the queries that contain,
    anywhere, [youtu.be/], or [youtube.com/] followed by [v/], [e/],
    [embed/], by two path segments each closed by [/], or by any text
    on one line that ends in [?v=] or [&v=]; and right after it 11
    characters none of which is a double quote, [&], [?], [/] or white
    space. *)
Theorem isYTVideoLink_iff (query : jsstring) :
  isYTVideoLink query = true
  <-> exists pre route id post,
        query = pre ++ (route ++ id) ++ post
        /\ video_route route
        /\ List.length id = 11%nat
        /\ forallb id_char id = true.
Proof.
  unfold isYTVideoLink. rewrite test_spec. split.
  - intros (pre & m & post & -> & H).
    apply youtube_matches in H as (route & id & -> & H).
    exists pre, route, id, post. auto.
  - intros (pre & route & id & post & -> & H).
    eexists pre, _, post. split; [reflexivity|].
    apply youtube_matches. exists route, id. auto.
Qed.

(** X17. The usual shapes of a video link are accepted, whatever
    surrounds them: [youtube.com/watch?v=], [youtu.be/] and
    [youtube.com/embed/], each followed by an identifier of 11
    characters of the identifier class. *)
Theorem isYTVideoLink_usual (pre id post : jsstring) :
  List.length id = 11%nat ->
  forallb id_char id = true ->
  isYTVideoLink (pre ++ (js "youtube.com/watch?v=" ++ id) ++ post) = true
  /\ isYTVideoLink (pre ++ (js "youtu.be/" ++ id) ++ post) = true
  /\ isYTVideoLink (pre ++ (js "youtube.com/embed/" ++ id) ++ post) = true.
Proof.
  intros Hlen Hall.
  assert (Hroute : forall route, video_route route ->
            isYTVideoLink (pre ++ (route ++ id) ++ post) = true).
  { intros route Hroute. unfold isYTVideoLink. apply test_spec.
    eexists pre, _, post. split; [reflexivity|].
    apply youtube_matches. exists route, id. auto. }
  split; [|split].
  - apply (Hroute (js "youtube.com/watch?v=")). right.
    exists (js "watch?v="). split; [reflexivity|].
    right; right; right; right. exists (js "watch"), 63%N. auto.
  - apply (Hroute (js "youtu.be/")). now left.
  - apply (Hroute (js "youtube.com/embed/")). right.
    exists (js "embed/"). split; [reflexivity|]. right; right; right; now left.
Qed.

(** X18. Both helpers search the query for a match: a query that is
    accepted stays accepted with any text put before and after it. *)
Theorem links_embedded (pre query post : jsstring) :
  (isSpotifyLink query = true -> isSpotifyLink (pre ++ query ++ post) = true)
  /\ (isYTVideoLink query = true -> isYTVideoLink (pre ++ query ++ post) = true).
Proof.
  assert (H : forall r, test r query = true -> test r (pre ++ query ++ post) = true).
  { intros r. rewrite !test_spec. intros (pre' & m & post' & -> & H).
    exists (pre ++ pre'), m, (post' ++ post). split; [|exact H].
    now rewrite <- !app_assoc. }
  split; apply H.
Qed.

(** X19. A query shorter than the shortest link is rejected: 52 code
    units for a track, 20 for a video. *)
Theorem links_too_short (query : jsstring) :
  ((List.length query < 52)%nat -> isSpotifyLink query = false)
  /\ ((List.length query < 20)%nat -> isYTVideoLink query = false).
Proof.
  split; intros Hlen; apply not_true_is_false; intros H.
  - apply isSpotifyLink_short in H. lia.
  - apply isYTVideoLink_short in H. lia.
Qed.

End UtilProperties.

(** ** Concrete runs *)

Module Runs.
Import Sample.

(** Third disconnect in a row, adapter lost: 15 seconds, then a rejoin.
    Sixth, on an abnormal closure: the connection is destroyed. *)
Lemma disconnect_backoff_witness :
  trace (snd (voiceConnection_stateChange (connection_in Ready)
                (disconnected AdapterUnavailable None)
                (start env (loaded track1) (library Disconnected 2 Playing false))))
  = [Called (UtilWait 15000); Called Rejoin]
  /\ trace (snd (voiceConnection_stateChange (connection_in Ready)
                   (disconnected WebSocketClose (Some 4006))
                   (start env (loaded track1) (library Disconnected 5 Playing false))))
     = [Called Destroy].
Proof.
  split.
  - apply (@disconnect_backoff env
             (start env (loaded track1) (library Disconnected 2 Playing false))
             (connection_in Ready) (disconnected AdapterUnavailable None)).
    + reflexivity.
    + intros [H _]; discriminate H.
    + cbn; lia.
  - apply (@disconnect_backoff env
             (start env (loaded track1) (library Disconnected 5 Playing false))
             (connection_in Ready) (disconnected WebSocketClose (Some 4006))).
    + reflexivity.
    + intros [_ H]; discriminate H.
    + cbn; lia.
Defined.

(** A 4014 closure that is not followed by a reconnection in time. *)
Lemma disconnect_4014_single_wait_witness :
  trace (snd (voiceConnection_stateChange (connection_in Ready)
                (disconnected WebSocketClose (Some 4014))
                (start env (loaded track1) (library Disconnected 0 Playing false))))
  = [Called (EntersState Connecting 5000); Called Destroy].
Proof.
  apply (@disconnect_4014_single_wait env
           (start env (loaded track1) (library Disconnected 0 Playing false))
           (connection_in Ready) (disconnected WebSocketClose (Some 4014)));
    reflexivity.
Defined.

(** One that is: the handler only waited, although the counter is past
    its bound. *)
Example disconnect_4014_reconnected :
  voiceConnection_stateChange (connection_in Ready)
    (disconnected WebSocketClose (Some 4014))
    (start env (loaded track1) (library Disconnected 7 Playing true))
  = (Returned tt,
     @Build_World env (loaded track1) (library Connecting 7 Playing true)
       [Called (EntersState Connecting 5000)]).
Proof. reflexivity. Qed.

(** The connection starts connecting and does not get ready in time. *)
Lemma readyLock_released_witness :
  let r := voiceConnection_stateChange (connection_in Signalling)
             (connection_in Connecting)
             (start env (loaded track1) (library Connecting 0 Idle false)) in
  readyLock (this (snd r)) = false
  /\ trace (snd r)
     = [Assigned_readyLock true; Called (EntersState Ready 20000);
        Called Destroy; Assigned_readyLock false].
Proof.
  apply (@readyLock_released env
           (start env (loaded track1) (library Connecting 0 Idle false))
           (connection_in Signalling) (connection_in Connecting)).
  - reflexivity.
  - left; reflexivity.
Defined.

(** The destruction after the timeout throws: the handler's promise is
    rejected, and the guard is free all the same. *)
Example guard_free_when_destroy_throws :
  let r := voiceConnection_stateChange (connection_in Signalling)
             (connection_in Connecting)
             (start env_destroy_throws (loaded track1)
                (library Connecting 0 Idle false)) in
  fst r = Raised (LibraryError 1) /\ readyLock (this (snd r)) = false.
Proof. split; reflexivity. Qed.

(** Nothing was ever created; and a track is played on a connection
    that gets ready in time. *)
Lemma playStream_unavailable_or_waits_witness :
  playStream None (start env constructed (library Ready 0 Idle true))
  = (Raised (Error "Audio resource is not available!"),
     start env constructed (library Ready 0 Idle true))
  /\ trace (snd (playStream None
                   (start env (loaded track1) (library Connecting 0 Idle true))))
     = [Called (EntersState Ready 20000); Called (Play track1)].
Proof.
  split.
  - apply (@playStream_unavailable_or_waits env
             (start env constructed (library Ready 0 Idle true)) None).
    reflexivity.
  - apply (@playStream_unavailable_or_waits env
             (start env (loaded track1) (library Connecting 0 Idle true)) None).
    + reflexivity.
    + discriminate.
Defined.

(** The wait for [Ready] is rejected: so is [playStream], and the player
    is not called. *)
Example playStream_timeout :
  let res := playStream (Some track1)
               (start env constructed (library Connecting 0 Idle false)) in
  fst res = Raised (LibraryError 0)
  /\ trace (snd res)
     = [Assigned_audioResource (Some track1); Called (EntersState Ready 20000)].
Proof. split; reflexivity. Qed.

(** The player is stopped while it is paused: the old status is
    [Paused], the player is [Idle] by the time the handler runs. *)
Lemma finish_despite_pause_witness :
  let r := audioPlayer_stateChange (player_in Paused) (player_in Idle)
             (start env (loaded track1) (library Ready 0 Idle true)) in
  trace (snd r) = [Assigned_audioResource None; Called (Emit EvFinish)]
  /\ emitted EvFinish (trace (snd r)) = 1%nat
  /\ audioResource (this (snd r)) = None.
Proof.
  destruct (@finish_despite_pause env
              (start env (loaded track1) (library Ready 0 Idle true))
              (player_in Paused) (player_in Idle))
    as [_ [Htrace [Hcount Hdropped]]];
    try (cbn; discriminate); try reflexivity.
  split; [exact Htrace | split; [exact Hcount | apply Hdropped]].
  intros e d. reflexivity.
Defined.

(** The handler for a status that the getter reads as not paused, and
    for one that it reads as paused. *)
Lemma idle_finish_witness :
  let r := audioPlayer_stateChange (player_in Playing) (player_in Idle)
             (start env (loaded track1) (library Ready 0 Idle true)) in
  (trace (snd r) = [Assigned_audioResource None; Called (Emit EvFinish)]
   /\ emitted EvFinish (trace (snd r)) = 1%nat
   /\ audioResource (this (snd r)) = None)
  /\ audioPlayer_stateChange (player_in Playing) (player_in Idle)
       (start env (loaded track1) (library Ready 0 AutoPaused true))
     = (Returned tt, start env (loaded track1) (library Ready 0 AutoPaused true)).
Proof.
  split.
  - destruct (@idle_finish env
                (start env (loaded track1) (library Ready 0 Idle true))
                (player_in Playing) (player_in Idle))
      as [[Htrace [Hcount Hdropped]] _];
      try (cbn; discriminate); try reflexivity.
    split; [exact Htrace | split; [exact Hcount | apply Hdropped]].
    intros e d. reflexivity.
  - apply (@idle_finish env
             (start env (loaded track1) (library Ready 0 AutoPaused true))
             (player_in Playing) (player_in Idle)).
    + reflexivity.
    + cbn; discriminate.
    + right; reflexivity.
Defined.

(** On the sample library the second destruction does throw, and
    [disconnect] swallows it. *)
Example disconnect_twice :
  let w := start env (loaded track1) (library Ready 0 Playing true) in
  fst ((destroy ;; destroy) w)
    = Raised (Error "Cannot destroy VoiceConnection - it has already been destroyed")
  /\ (disconnect ;; disconnect) w
     = (Returned tt,
        @Build_World env (loaded track1) (library Destroyed 0 Playing true)
          [Called Destroy; Called Destroy]).
Proof. split; reflexivity. Qed.

(** A second track is played while a first is current, on a connection
    that has to get ready first, with nothing else running. *)
Lemma playStream_keeps_current_witness :
  let res := playStream (Some track2)
               (start env (loaded track1) (library Connecting 0 Idle true)) in
  trace (snd res) = [Called (EntersState Ready 20000); Called (Play track2)]
  /\ this (snd res) = loaded track1.
Proof.
  destruct (@playStream_keeps_current env
              (start env (loaded track1) (library Connecting 0 Idle true)) track2)
    as [Htrace [_ [Hkept _]]].
  split; [exact Htrace|].
  apply Hkept; [intros e d; reflexivity | discriminate].
Defined.

(** The same call in a program that drops the current resource
    meanwhile: it is gone at the end, and not by [playStream]. *)
Example playStream_current_dropped_meanwhile :
  let res := playStream (Some track2)
               (start env_dropping (loaded track1)
                  (library Connecting 0 Idle true)) in
  audioResource (this (snd res)) = None
  /\ trace (snd res) = [Called (EntersState Ready 20000); Called (Play track2)].
Proof. split; reflexivity. Qed.

(** [setVolume(Infinity)] on a track created with inline volume. *)
Lemma setVolume_accepts_Infinity_witness :
  fst (setVolume Infinity (start env (loaded track1) (library Ready 0 Playing true)))
  = Returned true
  /\ trace (snd (setVolume Infinity
                   (start env (loaded track1) (library Ready 0 Playing true))))
     = [Called (SetVolumeLogarithmic 1%nat Infinity)].
Proof.
  apply (@setVolume_accepts_Infinity env
           (start env (loaded track1) (library Ready 0 Playing true))
           track1 1%nat); reflexivity.
Defined.

(** The numbers used here are doubles in their canonical form. *)
Example numbers_are_binary64 :
  forallb binary64 [zero; hundred; fifty; minus_one; Infinity; NaN] = true.
Proof. reflexivity. Qed.

(** The other values named for [setVolume]: NaN and -1 are rejected, 0
    and 100 are accepted and scaled to 0 and 1, and 50 to one half. *)
Example setVolume_values :
  let w := start env (loaded track1) (library Ready 0 Playing true) in
  setVolume NaN w = (Returned false, w)
  /\ setVolume minus_one w = (Returned false, w)
  /\ (fst (setVolume zero w) = Returned true
      /\ trace (snd (setVolume zero w)) = [Called (SetVolumeLogarithmic 1%nat zero)])
  /\ (fst (setVolume hundred w) = Returned true
      /\ trace (snd (setVolume hundred w))
         = [Called (SetVolumeLogarithmic 1%nat (S754_finite false 4503599627370496 (-52)))])
  /\ trace (snd (setVolume fifty w))
     = [Called (SetVolumeLogarithmic 1%nat (S754_finite false 4503599627370496 (-53)))].
Proof. repeat split; reflexivity. Qed.

(** A resource that was created without inline volume has no volume
    control for [setVolume] to call. *)
Example setVolume_without_inline_volume :
  fst (setVolume fifty
         (start env (loaded {| resource_id := 3; volume := None |})
            (library Ready 0 Playing true)))
  = Raised (TypeError
      "Cannot read properties of undefined (reading 'setVolumeLogarithmic')").
Proof. reflexivity. Qed.

(** A stream is created and played, the player reports [Playing] and
    later [Idle]: "start" and "finish" are emitted once each and the
    resource is dropped. *)
Example start_then_finish :
  let w0 := start env constructed (library Ready 0 Idle true) in
  let w1 := snd (createStream (SrcLocator "sourceA") None w0) in
  let w2 := snd (playStream None w1) in
  let w3 := snd (audioPlayer_stateChange (player_in Buffering) (player_in Playing) w2) in
  let w4 := player_becomes Idle w3 in
  let w5 := snd (audioPlayer_stateChange (player_in Playing) (player_in Idle) w4) in
  emitted EvStart (trace w3) = 1%nat
  /\ emitted EvFinish (trace w3) = 0%nat
  /\ emitted EvStart (trace w5) = 1%nat
  /\ emitted EvFinish (trace w5) = 1%nat
  /\ audioResource (this w5) = None.
Proof. repeat split; reflexivity. Qed.

End Runs.

(** ** More concrete runs *)

Module MoreRuns.
Import Sample More Util UtilProperties.

(** The connection was destroyed while a track was playing. *)
Lemma destroyed_stops_player_witness :
  let r := voiceConnection_stateChange (connection_in Ready)
             (connection_in Destroyed)
             (start env (loaded track1) (library Destroyed 0 Playing true)) in
  fst r = Returned tt /\ trace (snd r) = [Called Stop].
Proof.
  exact (@destroyed_stops_player env
           (start env (loaded track1) (library Destroyed 0 Playing true))
           (connection_in Ready) (connection_in Destroyed) eq_refl).
Defined.

(** The connection got ready; and it signals again while a wait for
    [Ready] is in flight. *)
Lemma stateChange_ignored_witness :
  voiceConnection_stateChange (connection_in Connecting) (connection_in Ready)
    (start env (loaded track1) (library Ready 0 Playing true))
  = (Returned tt, start env (loaded track1) (library Ready 0 Playing true))
  /\ voiceConnection_stateChange (connection_in Connecting)
       (connection_in Signalling)
       (start env (waiting track1) (library Signalling 1 Playing true))
     = (Returned tt, start env (waiting track1) (library Signalling 1 Playing true)).
Proof.
  split.
  - apply (@stateChange_ignored env). left. reflexivity.
  - apply (@stateChange_ignored env). right.
    repeat split; cbn; discriminate.
Defined.

(** A disconnect is retried: the fields of the dispatcher are as
    before. *)
Lemma stateChange_assignments_witness :
  this (snd (voiceConnection_stateChange (connection_in Ready)
               (disconnected EndpointRemoved None)
               (start env (loaded track1) (library Disconnected 1 Playing true))))
  = loaded track1.
Proof.
  apply (@stateChange_assignments env
           (start env (loaded track1) (library Disconnected 1 Playing true))
           (connection_in Ready) (disconnected EndpointRemoved None)).
  intros e d. reflexivity.
Defined.

(** The player starts playing. *)
Lemma playing_start_witness :
  trace (snd (audioPlayer_stateChange (player_in Buffering) (player_in Playing)
                (start env (loaded track1) (library Ready 0 Playing true))))
  = [Called (Emit EvStart)].
Proof.
  apply (@playing_start env
           (start env (loaded track1) (library Ready 0 Playing true))
           (player_in Buffering) (player_in Playing));
    cbn; discriminate || reflexivity.
Defined.

(** The player is stopped while it is idle; and it starts buffering. *)
Lemma stateChange_silent_witness :
  audioPlayer_stateChange (player_in Idle) (player_in Idle)
    (start env (loaded track1) (library Ready 0 Idle true))
  = (Returned tt, start env (loaded track1) (library Ready 0 Idle true))
  /\ audioPlayer_stateChange (player_in Idle) (player_in Buffering)
       (start env (loaded track1) (library Ready 0 Buffering true))
     = (Returned tt, start env (loaded track1) (library Ready 0 Buffering true)).
Proof.
  split.
  - apply (@stateChange_silent env); [discriminate | right; reflexivity].
  - apply (@stateChange_silent env); [discriminate | left; discriminate].
Defined.


(** ... and played right away, on a connection that is not ready yet. *)
Lemma createStream_then_playStream_witness :
  trace (snd ((createStream (SrcLocator "sourceA") None ;; playStream None)
                (start env (loaded track2) (library Connecting 0 Idle true))))
  = [Called (CreateAudioResource (SrcLocator "sourceA") Arbitrary None true);
     Assigned_audioResource (Some track1);
     Called (EntersState Ready 20000);
     Called (Play track1)].
Proof.
  apply (@createStream_then_playStream env
           (start env (loaded track2) (library Connecting 0 Idle true))
           (SrcLocator "sourceA") None track1).
  reflexivity.
Defined.

(** A track is played on a ready connection. *)
Lemma playStream_ready_witness :
  let res := playStream (Some track1)
               (start env constructed (library Ready 0 Idle true)) in
  trace (snd res) = [Assigned_audioResource (Some track1); Called (Play track1)]
  /\ fst res = Returned tt.
Proof.
  exact (@playStream_ready env
           (start env constructed (library Ready 0 Idle true))
           (Some track1) track1 eq_refl eq_refl).
Defined.

(** After the end of a track. *)
Lemma finished_unavailable_witness :
  let w' := snd (audioPlayer_stateChange (player_in Playing) (player_in Idle)
                   (start env (loaded track1) (library Ready 0 Idle true))) in
  fst (playStream None w') = Raised (Error "Audio resource is not available!")
  /\ fst (setVolume fifty w') = Returned false.
Proof.
  destruct (@finished_unavailable env
              (start env (loaded track1) (library Ready 0 Idle true))
              (player_in Playing) (player_in Idle)) as [Hplay Hvolume];
    try (cbn; discriminate); try reflexivity.
  - intros e d. reflexivity.
  - cbv zeta. rewrite Hplay, (Hvolume fifty). split; reflexivity.
Defined.

(** A volume of minus one. *)
Lemma setVolume_rejects_witness :
  setVolume minus_one (start env (loaded track1) (library Ready 0 Playing true))
  = (Returned false, start env (loaded track1) (library Ready 0 Playing true)).
Proof.
  apply (@setVolume_rejects env). right; right. reflexivity.
Defined.

(** A volume of fifty: the level is one half. *)
Lemma setVolume_level_witness :
  exists r vt,
    audioResource (loaded track1) = Some r
    /\ volume r = Some vt
    /\ trace (snd (setVolume fifty
                     (start env (loaded track1) (library Ready 0 Playing true))))
       = [Called (SetVolumeLogarithmic vt
                    (S754_finite false 4503599627370496 (-53)))]
    /\ isNaN (number_div fifty hundred) = false
    /\ number_lt (number_div fifty hundred) zero = false.
Proof.
  apply (@setVolume_level env
           (start env (loaded track1) (library Ready 0 Playing true)) fifty).
  reflexivity.
Defined.

(** A channel with two bots in it, and the same with somebody else. *)
Lemma isVoiceEmpty_iff_witness :
  isVoiceEmpty only_bots = true
  /\ isVoiceEmpty {| members := ("103", human) :: members only_bots |} = false.
Proof.
  split.
  - apply isVoiceEmpty_iff. intros id member [H | [H | []]];
      injection H as _ <-; reflexivity.
  - apply not_true_is_false. intros H.
    pose proof (proj1 (isVoiceEmpty_iff _) H "103" human (or_introl eq_refl)).
    discriminate.
Defined.

(** A track link inside a sentence. *)
Lemma isSpotifyLink_iff_witness :
  isSpotifyLink (js "listen to " ++ track_link ++ js " now") = true.
Proof.
  apply isSpotifyLink_iff.
  exists (js "listen to "), [], (js "open."), (js "track/"), track_id, (js " now").
  repeat split; auto.
Defined.

(** The shortest video link there is. *)
Lemma isYTVideoLink_iff_witness :
  isYTVideoLink short_link = true.
Proof.
  apply isYTVideoLink_iff.
  exists [], (js "youtu.be/"), video_id, [].
  repeat split. now left.
Defined.

Lemma isYTVideoLink_usual_witness :
  isYTVideoLink (js "https://www." ++ (js "youtube.com/watch?v=" ++ video_id)
                 ++ js "&t=10") = true.
Proof.
  apply (proj1 (isYTVideoLink_usual (js "https://www.") video_id (js "&t=10")
                  eq_refl eq_refl)).
Defined.

(** A link to somewhere else that carries a track link. *)
Lemma links_embedded_witness :
  isSpotifyLink (js "https://example.org/?next=" ++ track_link ++ js "#top") = true.
Proof.
  apply (proj1 (links_embedded (js "https://example.org/?next=") track_link
                  (js "#top"))).
  reflexivity.
Defined.

Lemma links_too_short_witness :
  isSpotifyLink (js "https://open.spotify.com/track/") = false
  /\ isYTVideoLink (js "youtu.be/dQw4w9WgXc") = false.
Proof.
  split.
  - apply (proj1 (links_too_short (js "https://open.spotify.com/track/"))).
    vm_compute. lia.
  - apply (proj2 (links_too_short (js "youtu.be/dQw4w9WgXc"))).
    vm_compute. lia.
Defined.

(** The bounds are met: the two shortest links are accepted. *)
Example shortest_links :
  List.length track_link = 52%nat /\ isSpotifyLink track_link = true
  /\ List.length short_link = 20%nat /\ isYTVideoLink short_link = true.
Proof. repeat split. Qed.

(** What the patterns make of some other addresses. *)
Example other_links :
  isSpotifyLink (js "https://open.spotify.com/album/4uLU6hMCjMI75M1A2tKUQC") = false
  /\ isSpotifyLink (js "https://play.spotify.com/track/4uLU6hMCjMI75M1A2tKUQC") = false
  /\ isYTVideoLink (js "https://www.youtube.com/playlist?list=PLabcdefghijk") = false
  /\ isYTVideoLink (js "https://www.youtube.com/user/foo/videos/dQw4w9WgXcQ") = true.
Proof. repeat split. Qed.

End MoreRuns.
